(** * PingMeet: reconciliation, conflict detection, reminder scheduling,
      notification dispatch and token refresh

    A shallow embedding of the core of the PingMeet extension:
    - [ConflictDetector]   from src/utils/conflict-detector.js
    - [Service]            from the service worker, class PingMeetService
    - [StorageManager]     from src/utils/storage.js
    - [CalendarAPI]        from src/utils/calendar-api.js
    - [NotificationManager] from src/background/notification-manager.js

    Conventions of the embedding.
    - A JavaScript value that may be [undefined]/[null] is an [option].
    - A timestamp is an ECMAScript time value: an integer number of
      milliseconds, or NaN ([Invalid], the time value of an Invalid Date).
      The fields [startTime]/[endTime] of an event hold the result of
      [new Date(field)]; the parser of date strings belongs to the host.
    - Strings are sequences of 8-bit code units; the host functions
      [toLowerCase], [trim] and the class [\s] are modelled on ASCII.
    - The host (chrome.alarms, chrome.storage, chrome.notifications, fetch)
      is explicit state, or an oracle that says which calls fail.
    - A thrown exception is the [Throw] case of [res]. *)

From Stdlib Require Import ZArith QArith Ascii String List Lia Bool Sorted.
From stdpp Require Import gmap strings list fin_maps.
Import ListNotations.

Local Open Scope Z_scope.

(* ------------------------------------------------------------------ *)
(** ** Host strings *)

Module JS.

(** [c] is matched by the class [\s] (and stripped by [trim]):
    TAB, LF, VT, FF, CR, SPACE and NBSP. *)
Definition isSpace (c : ascii) : bool :=
  let n := nat_of_ascii c in
  ((9 <=? n)%nat && (n <=? 13)%nat) || (n =? 32)%nat || (n =? 160)%nat.

Definition lowerChar (c : ascii) : ascii :=
  let n := nat_of_ascii c in
  if ((65 <=? n)%nat && (n <=? 90)%nat)%bool then ascii_of_nat (n + 32) else c.

(** [s.toLowerCase()] *)
Fixpoint toLowerCase (s : string) : string :=
  match s with
  | EmptyString => EmptyString
  | String c s' => String (lowerChar c) (toLowerCase s')
  end.

Fixpoint trimStart (s : string) : string :=
  match s with
  | EmptyString => EmptyString
  | String c s' => if isSpace c then trimStart s' else s
  end.

(** Drops the white space at the end: a character is kept when some
    character that is not white space follows it or it is not white
    space itself. *)
Fixpoint trimEnd (s : string) : string :=
  match s with
  | EmptyString => EmptyString
  | String c s' =>
      match trimEnd s' with
      | EmptyString => if isSpace c then EmptyString else String c EmptyString
      | t => String c t
      end
  end.

(** [s.trim()] *)
Definition trim (s : string) : string := trimEnd (trimStart s).

(** [s.replace(/\s+/g, '-')]: every maximal run of white space becomes
    one dash. [inRun] says that the previous character was white space. *)
Fixpoint dashRuns (inRun : bool) (s : string) : string :=
  match s with
  | EmptyString => EmptyString
  | String c s' =>
      if isSpace c
      then (if inRun then dashRuns true s' else String "-" (dashRuns true s'))
      else String c (dashRuns false s')
  end.

Definition replaceSpaces (s : string) : string := dashRuns false s.

(** [s.includes(sub)] *)
Fixpoint includes (s sub : string) : bool :=
  String.prefix sub s ||
  match s with
  | EmptyString => false
  | String _ s' => includes s' sub
  end.

(** [s.startsWith(p)] *)
Definition startsWith (s p : string) : bool := String.prefix p s.

(** A string in a condition: the empty string is falsy. *)
Definition truthyStr (o : option string) : bool :=
  match o with
  | Some s => negb (String.eqb s "")
  | None => false
  end.

(** [o || d] on strings. *)
Definition orStr (o : option string) (d : string) : string :=
  if truthyStr o then default d o else d.

Definition digitChar (n : Z) : ascii := ascii_of_nat (48 + Z.to_nat n).

(** Decimal digits of a non-negative integer, most significant first;
    [fuel] bounds the number of digits. *)
Fixpoint digitsFuel (fuel : nat) (n : Z) (acc : string) : string :=
  match fuel with
  | O => acc
  | S fuel' =>
      let acc' := String (digitChar (n mod 10)) acc in
      if n / 10 =? 0 then acc' else digitsFuel fuel' (n / 10) acc'
  end.

(** [String(n)] for an integer of absolute value below 10^21, where
    JavaScript prints all digits and no exponent. *)
Definition intToString (n : Z) : string :=
  if n <? 0 then String "-" (digitsFuel 22 (- n) "")
  else digitsFuel 22 n "".

End JS.

(* ------------------------------------------------------------------ *)
(** ** Time values and Date objects *)

Inductive instant : Type :=
| Valid (ms : Z)
| Invalid.

#[global] Instance instant_eq_dec : EqDecision instant.
Proof. solve_decision. Defined.

Module Date.

(** The largest time value of a Date: 8.64e15 ms on either side of
    the epoch. *)
Definition maxTime : Z := 8640000000000000.

(** [new Date(n)] for a number [n]: TimeClip. *)
Definition ofNumber (n : Z) : instant :=
  if Z.abs n <=? maxTime then Valid n else Invalid.

(** [new Date(d.getTime() + k)] *)
Definition plus (d : instant) (k : Z) : instant :=
  match d with
  | Valid t => ofNumber (t + k)
  | Invalid => Invalid
  end.

(** [new Date(field)] for a field of an event: a missing ([undefined])
    field gives an Invalid Date. *)
Definition ofField (o : option instant) : instant := default Invalid o.

(** [a < b] on Dates or time values: false as soon as one is NaN. *)
Definition lt (a b : instant) : bool :=
  match a, b with
  | Valid x, Valid y => x <? y
  | _, _ => false
  end.

(** [a.getTime() === b.getTime()]: NaN is not equal to itself. *)
Definition sameTime (a b : instant) : bool :=
  match a, b with
  | Valid x, Valid y => x =? y
  | _, _ => false
  end.

(** [Math.max(a, b)] and [Math.min(a, b)] on Dates. *)
Definition max (a b : instant) : instant :=
  match a, b with
  | Valid x, Valid y => Valid (Z.max x y)
  | _, _ => Invalid
  end.

Definition min (a b : instant) : instant :=
  match a, b with
  | Valid x, Valid y => Valid (Z.min x y)
  | _, _ => Invalid
  end.

(** [a >= b] and [a <= b] on Dates: false as soon as one is NaN. *)
Definition ge (a b : instant) : bool :=
  match a, b with
  | Valid x, Valid y => y <=? x
  | _, _ => false
  end.

Definition le (a b : instant) : bool :=
  match a, b with
  | Valid x, Valid y => x <=? y
  | _, _ => false
  end.

End Date.

Module TIME.
Definition ONE_MINUTE_MS : Z := 60 * 1000.
Definition ONE_HOUR_MS : Z := 60 * 60 * 1000.
End TIME.

(* ------------------------------------------------------------------ *)
(** ** Events *)

Record Attendee : Type := mkAttendee {
  att_email : option string;
  att_responseStatus : option string;
  att_self : bool
}.

#[global] Instance Attendee_eq_dec : EqDecision Attendee.
Proof. solve_decision. Defined.

Record Event : Type := mkEvent {
  id : option string;
  title : option string;
  startTime : option instant;
  endTime : option instant;
  attendees : option (list Attendee);
  meetingLink : option string;
  description : option string;
  location : option string;
  source : option string;
  hasConflict : bool;
  conflictCount : nat
}.

#[global] Instance Event_eq_dec : EqDecision Event.
Proof. solve_decision. Defined.

(* ------------------------------------------------------------------ *)
(** ** src/utils/conflict-detector.js *)

Inductive Severity : Type := high | medium | low.

Module ConflictDetector.

(** [event.endTime ? new Date(event.endTime)
                   : new Date(start.getTime() + 60 * 60 * 1000)] *)
Definition endOf (e : Event) (start : instant) : instant :=
  match endTime e with
  | Some t => t
  | None => Date.plus start (60 * 60 * 1000)
  end.

Definition eventsOverlap (event1 event2 : Event) : bool :=
  let start1 := Date.ofField (startTime event1) in
  let end1 := endOf event1 start1 in
  let start2 := Date.ofField (startTime event2) in
  let end2 := endOf event2 start2 in
  Date.lt start1 end2 && Date.lt start2 end1.

(** [(overlapEnd - overlapStart) / (1000 * 60)]: the quotient as a
    rational, NaN as [None]. The double that JavaScript computes
    compares with 30 and 15 as the rational does: the time values are
    integers below 2^53, division is correctly rounded and monotone,
    and 1800000/60000 and 900000/60000 are exact. *)
Definition overlapMinutes (overlapStart overlapEnd : instant) : option Q :=
  match overlapStart, overlapEnd with
  | Valid s, Valid e => Some ((e - s) # 60000)%Q
  | _, _ => None
  end.

(** [x > k] for a number [x] that may be NaN. *)
Definition gtQ (x : option Q) (k : Q) : bool :=
  match x with
  | Some q => negb (Qle_bool q k)
  | None => false
  end.

Definition calculateSeverity (event1 event2 : Event) : Severity :=
  let start1 := Date.ofField (startTime event1) in
  let start2 := Date.ofField (startTime event2) in
  if Date.sameTime start1 start2 then high
  else
    let end1 := endOf event1 start1 in
    let end2 := endOf event2 start2 in
    let overlapStart := Date.max start1 start2 in
    let overlapEnd := Date.min end1 end2 in
    let m := overlapMinutes overlapStart overlapEnd in
    if gtQ m 30 then high
    else if gtQ m 15 then medium
    else low.

Record Conflict : Type := mkConflict {
  c_events : Event * Event;
  c_message : string;
  c_severity : Severity
}.

(** The comparator of the sort, [new Date(a.startTime) - new
    Date(b.startTime)]; a NaN result counts as 0 (SortCompare). *)
Definition compareStart (a b : Event) : Z :=
  match Date.ofField (startTime a), Date.ofField (startTime b) with
  | Valid x, Valid y => x - y
  | _, _ => 0
  end.

(** [Array.prototype.sort] is stable: [x], which stood before all of
    [l], goes before the first element it does not follow. *)
Fixpoint insertSorted (x : Event) (l : list Event) : list Event :=
  match l with
  | [] => [x]
  | y :: l' =>
      if compareStart x y >? 0 then y :: insertSorted x l' else x :: l
  end.

Definition sortByStart (events : list Event) : list Event :=
  fold_right insertSorted [] events.

(** A missing title prints as [undefined] in a template literal. *)
Definition show (o : option string) : string := default "undefined" o.

Definition conflictOf (event1 event2 : Event) : Conflict :=
  {| c_events := (event1, event2);
     c_message :=
       String.append (String.append (String.append (String.append
         (String (ascii_of_nat 34) "") (show (title event1)))
         (String (ascii_of_nat 34) " overlaps with "))
         (String (ascii_of_nat 34) (show (title event2))))
         (String (ascii_of_nat 34) "");
     c_severity := calculateSeverity event1 event2 |}.

(** The loops over [i] and [j = i + 1 ..]. *)
Fixpoint pairConflicts (sortedEvents : list Event) : list Conflict :=
  match sortedEvents with
  | [] => []
  | event1 :: rest =>
      map (conflictOf event1) (filter (fun event2 => eventsOverlap event1 event2 = true) rest)
      ++ pairConflicts rest
  end.

Definition detectConflicts (events : list Event) : list Conflict :=
  pairConflicts (sortByStart events).

Definition getConflictingEvents (event : Event) (allEvents : list Event) : list Event :=
  filter (fun otherEvent =>
            (if decide (id otherEvent = id event) then false
             else eventsOverlap event otherEvent) = true) allEvents.

(** [getUpcomingConflicts(events, hoursAhead)] at the clock [nowMs]. *)
Definition getUpcomingConflicts (nowMs : Z) (events : list Event) (hoursAhead : Z)
  : list Conflict :=
  let now := Date.ofNumber nowMs in
  let cutoff := Date.plus now (hoursAhead * 60 * 60 * 1000) in
  let upcomingEvents :=
    List.filter (fun event =>
                   let startTime := Date.ofField (startTime event) in
                   Date.ge startTime now && Date.le startTime cutoff) events in
  detectConflicts upcomingEvents.

(** [allEvents.some(...)] with the test of [getConflictingEvents]. *)
Definition hasConflict (event : Event) (allEvents : list Event) : bool :=
  existsb (fun otherEvent =>
             if decide (id otherEvent = id event) then false
             else eventsOverlap event otherEvent) allEvents.

End ConflictDetector.

(* ------------------------------------------------------------------ *)
(** ** Exceptions *)

Inductive exn : Type :=
| TypeError (message : string)
| Error (message : string)
| Undefined.

Inductive res (A : Type) : Type :=
| Ok (a : A)
| Throw (e : exn).
Arguments Ok {A} a.
Arguments Throw {A} e.

Definition bindRes {A B : Type} (r : res A) (k : A -> res B) : res B :=
  match r with
  | Ok a => k a
  | Throw e => Throw e
  end.

(* ------------------------------------------------------------------ *)
(** ** src/utils/constants.js *)

Module ALARM_NAMES.
Definition MEETING_PREFIX : string := "meeting_".
End ALARM_NAMES.

Module STORAGE_KEYS.
Definition ALARM_PREFIX : string := "alarm_".
End STORAGE_KEYS.

Module BADGE_COLORS.
Definition DEFAULT : string := "#4285F4".
Definition URGENT : string := "#FF0000".
Definition WARNING : string := "#FF6600".
End BADGE_COLORS.

Record Settings : Type := mkSettings {
  reminderMinutes : Z;
  cfg_playSound : option bool;     (* settings.playSound *)
  cfg_showPopup : option bool;     (* settings.showPopup *)
  cfg_autoOpen : bool;             (* settings.autoOpen *)
  cfg_voiceReminder : bool         (* settings.voiceReminder *)
}.

Definition DEFAULT_SETTINGS : Settings :=
  {| reminderMinutes := 2; cfg_playSound := Some true; cfg_showPopup := Some true;
     cfg_autoOpen := false; cfg_voiceReminder := false |}.

(* ------------------------------------------------------------------ *)
(** ** The host state seen by the service worker *)

Record ApiStatus : Type := mkApiStatus { google : bool; outlook : bool }.

Record Badge : Type := mkBadge { badgeText : string; badgeColor : string }.

(** Everything that survives a restart of the service worker:
    - [alarms]: chrome.alarms, name to firing time;
    - [local]: the keys of chrome.storage.local that hold one event each;
    - [events]: the key ['events'] of chrome.storage.local;
    and what the worker reads from its environment: the settings, the
    connection status of the two APIs, the clock, the badge. *)
Record World : Type := mkWorld {
  alarms : gmap string Z;
  local : gmap string Event;
  events : list Event;
  settings : Settings;
  apiStatus : ApiStatus;
  now : Z;
  badge : Badge
}.

(* ------------------------------------------------------------------ *)
(** ** src/utils/storage.js *)

Module StorageManager.

Definition eventKey (eventId : string) : string :=
  String.append STORAGE_KEYS.ALARM_PREFIX eventId.

Definition getEvent (eventId : string) (w : World) : option Event :=
  local w !! eventKey eventId.

Definition saveEvent (eventId : string) (event : Event) (w : World) : World :=
  {| alarms := alarms w; local := <[eventKey eventId := event]> (local w);
     events := events w; settings := settings w; apiStatus := apiStatus w;
     now := now w; badge := badge w |}.

Definition removeEvent (eventId : string) (w : World) : World :=
  {| alarms := alarms w; local := delete (eventKey eventId) (local w);
     events := events w; settings := settings w; apiStatus := apiStatus w;
     now := now w; badge := badge w |}.

Definition saveEvents (evs : list Event) (w : World) : World :=
  {| alarms := alarms w; local := local w;
     events := evs; settings := settings w; apiStatus := apiStatus w;
     now := now w; badge := badge w |}.

Definition getEvents (w : World) : list Event := events w.

End StorageManager.

(** chrome.alarms *)
Module Alarms.

Definition get (name : string) (w : World) : option Z := alarms w !! name.

(** [chrome.alarms.create(name, {when})]: an alarm of the same name is
    replaced. *)
Definition create (name : string) (when : Z) (w : World) : World :=
  {| alarms := <[name := when]> (alarms w); local := local w;
     events := events w; settings := settings w; apiStatus := apiStatus w;
     now := now w; badge := badge w |}.

Definition clear (name : string) (w : World) : World :=
  {| alarms := delete name (alarms w); local := local w;
     events := events w; settings := settings w; apiStatus := apiStatus w;
     now := now w; badge := badge w |}.

End Alarms.

(* ------------------------------------------------------------------ *)
(** ** The service worker (class PingMeetService) *)

Inductive ScheduleOutcome : Type :=
| NoStartTime                          (* 'Event has no start time' *)
| DeclinedSkipped                      (* 'Skipping reminder for declined meeting' *)
| AlreadyScheduled                     (* 'Alarm already scheduled' *)
| Scheduled (name : string) (when : Z) (* 'Scheduled reminder' *)
| TimePassed.                          (* 'Reminder time already passed' *)

Module Service.

(** [Math.floor(startTime.getTime() / 60000) * 60000] printed in a
    template literal. On the range of time values the double quotient
    has the floor of the exact one, which is [Z.div]. *)
Definition roundedTime (startTime : instant) : string :=
  match startTime with
  | Valid t => JS.intToString (t / 60000 * 60000)
  | Invalid => "NaN"
  end.

(** The key of [deduplicateEvents]:
    [`${event.title.toLowerCase().trim()}_${roundedTime}`];
    reading [toLowerCase] of a missing title throws. *)
Definition dedupKey (event : Event) : res string :=
  let startTime := Date.ofField (startTime event) in
  match title event with
  | None => Throw (TypeError "Cannot read properties of undefined (reading 'toLowerCase')")
  | Some t =>
      Ok (String.append (JS.trim (JS.toLowerCase t))
            (String.append "_" (roundedTime startTime)))
  end.

Definition lengthOr0 (o : option string) : Z :=
  match o with
  | Some s => Z.of_nat (String.length s)
  | None => 0
  end.

(** The score of [hasMoreDetails]. *)
Definition score (a : Event) : Z :=
  (if JS.truthyStr (meetingLink a) then 2 else 0) +
  (match attendees a with Some l => Z.of_nat (length l) | None => 0 end) +
  lengthOr0 (description a) +
  lengthOr0 (location a).

Definition hasMoreDetails (a b : Event) : bool := score a >? score b.

(** [result.indexOf(existing)]. JavaScript compares references; the
    objects of [result] have pairwise distinct keys and [existing] is
    one of them (lemma [indexOf_indexed]), so the first structurally
    equal element is that object. *)
Definition indexOf (result : list Event) (existing : Event) : option nat :=
  fst <$> list_find (fun x => x = existing) result.

(** One turn of the loop of [deduplicateEvents] on the pair of the map
    [seen] and the array [result]. *)
Definition dedupStep (st : gmap string Event * list Event) (event : Event)
  : res (gmap string Event * list Event) :=
  let '(seen, result) := st in
  bindRes (dedupKey event) (fun key =>
    match seen !! key with
    | Some existing =>
        if hasMoreDetails event existing then
          match indexOf result existing with
          | Some index => Ok (<[key := event]> seen, <[index := event]> result)
          | None => Ok (seen, result)
          end
        else Ok (seen, result)
    | None => Ok (<[key := event]> seen, result ++ [event])
    end).

Fixpoint dedupLoop (evs : list Event) (st : gmap string Event * list Event)
  : res (gmap string Event * list Event) :=
  match evs with
  | [] => Ok st
  | event :: rest => bindRes (dedupStep st event) (dedupLoop rest)
  end.

Definition deduplicateEvents (evs : list Event) : res (list Event) :=
  bindRes (dedupLoop evs (∅, [])) (fun st => Ok (snd st)).

(** [event.attendees?.find(a => a.self)] *)
Definition userAttendee (event : Event) : option Attendee :=
  match attendees event with
  | Some l => List.find att_self l
  | None => None
  end.

(** [userAttendee?.responseStatus === 'declined'] *)
Definition userDeclined (event : Event) : bool :=
  match userAttendee event with
  | Some a => bool_decide (att_responseStatus a = Some "declined")
  | None => false
  end.

(** The name of the alarm of [scheduleReminder]:
    [`${ALARM_NAMES.MEETING_PREFIX}${normalizedTitle}_${roundedTime}`] *)
Definition alarmName (event : Event) : string :=
  let startTime := Date.ofField (startTime event) in
  let normalizedTitle :=
    JS.replaceSpaces (JS.trim (JS.toLowerCase (JS.orStr (title event) ""))) in
  String.append ALARM_NAMES.MEETING_PREFIX
    (String.append normalizedTitle (String.append "_" (roundedTime startTime))).

Definition scheduleReminder (event : Event) (w : World) : World * ScheduleOutcome :=
  match startTime event with
  | None => (w, NoStartTime)
  | Some _ =>
      if userDeclined event then (w, DeclinedSkipped)
      else
        let startTime := Date.ofField (startTime event) in
        let name := alarmName event in
        match Alarms.get name w with
        | Some _ => (w, AlreadyScheduled)
        | None =>
            let reminderTime :=
              Date.plus startTime (- (reminderMinutes (settings w) * TIME.ONE_MINUTE_MS)) in
            match reminderTime with
            | Valid when =>
                if now w <? when
                then (StorageManager.saveEvent name event (Alarms.create name when w),
                      Scheduled name when)
                else (w, TimePassed)
            | Invalid => (w, TimePassed)
            end
        end
  end.

(** [for (const event of events) await this.scheduleReminder(event)] *)
Fixpoint scheduleAll (evs : list Event) (w : World) : World * list ScheduleOutcome :=
  match evs with
  | [] => (w, [])
  | event :: rest =>
      let '(w1, o) := scheduleReminder event w in
      let '(w2, os) := scheduleAll rest w1 in
      (w2, o :: os)
  end.

Definition loadStoredEvents (w : World) : World * list ScheduleOutcome :=
  scheduleAll (StorageManager.getEvents w) w.

Definition handleDecline (eventId : string) (w : World) : World :=
  let w1 := Alarms.clear (String.append ALARM_NAMES.MEETING_PREFIX eventId) w in
  StorageManager.removeEvent eventId w1.

Definition handleSnooze (event : Event) (minutes : Z) (w : World) : World :=
  let snoozeTime := now w + minutes * TIME.ONE_MINUTE_MS in
  let name :=
    String.append ALARM_NAMES.MEETING_PREFIX
      (String.append (ConflictDetector.show (id event)) "_snooze") in
  StorageManager.saveEvent name event (Alarms.create name snoozeTime w).

Definition updateBadge (count : nat) (hasConflicts : bool) (w : World) : World :=
  let b :=
    if (0 <? count)%nat
    then {| badgeText := JS.intToString (Z.of_nat count);
            badgeColor := if hasConflicts then BADGE_COLORS.WARNING
                          else BADGE_COLORS.DEFAULT |}
    else {| badgeText := ""; badgeColor := badgeColor (badge w) |} in
  {| alarms := alarms w; local := local w; events := events w;
     settings := settings w; apiStatus := apiStatus w; now := now w;
     badge := b |}.

(** The first filter of [handleNewEvents]: events scraped from a page
    are skipped while the API of that calendar is connected. *)
Definition keptBySource (st : ApiStatus) (event : Event) : bool :=
  let source := JS.orStr (source event) "" in
  if google st && String.eqb source "google-dom" then false
  else if outlook st && String.eqb source "outlook-dom" then false
  else true.

(** The second filter: [hoursUntil > 0 && hoursUntil <= 24], where
    [hoursUntil = (startTime - now) / TIME.ONE_HOUR_MS]. *)
Definition isUpcoming (nowMs : Z) (event : Event) : bool :=
  match startTime event with
  | None => false
  | Some (Valid t) => (0 <? t - nowMs) && (t - nowMs <=? 24 * TIME.ONE_HOUR_MS)
  | Some Invalid => false
  end.

(** The body of the loop that adds the conflict information. The loop
    writes the two fields into the objects of [uniqueEvents] while it
    walks the array; [getConflictingEvents] reads only [id],
    [startTime] and [endTime], which the loop does not write. *)
Definition annotate (uniqueEvents : list Event) (event : Event) : Event :=
  let eventConflicts := ConflictDetector.getConflictingEvents event uniqueEvents in
  if (0 <? length eventConflicts)%nat
  then {| id := id event; title := title event; startTime := startTime event;
          endTime := endTime event; attendees := attendees event;
          meetingLink := meetingLink event; description := description event;
          location := location event; source := source event;
          hasConflict := true; conflictCount := length eventConflicts |}
  else event.

(** [handleNewEvents]. The exception modelled is the one the handler
    raises by itself, in [deduplicateEvents]; the calls to the host
    (storage, alarms, badge) are taken to succeed, and the attendees of
    an event to be a list, as a producer of well-formed events gives
    them. *)
Definition handleNewEvents (evs : list Event) (w : World)
  : World * res (list ScheduleOutcome) :=
  match evs with
  | [] => (w, Ok [])
  | _ =>
      let filteredEvents := List.filter (keptBySource (apiStatus w)) evs in
      let upcoming := List.filter (isUpcoming (now w)) filteredEvents in
      match deduplicateEvents upcoming with
      | Throw e => (w, Throw e)
      | Ok uniqueEvents =>
          let conflicts := ConflictDetector.detectConflicts uniqueEvents in
          let uniqueEvents :=
            if (0 <? length conflicts)%nat
            then map (annotate uniqueEvents) uniqueEvents
            else uniqueEvents in
          let w1 := StorageManager.saveEvents uniqueEvents w in
          let '(w2, outcomes) := scheduleAll uniqueEvents w1 in
          (updateBadge (length uniqueEvents) (0 <? length conflicts)%nat w2,
           Ok outcomes)
      end
  end.

(** The alarms that [handleAlarm] passes to other routines. *)
Definition systemAlarms : list string :=
  ["CALENDAR_API_SYNC"; "DOM_SYNC_TRIGGER"; "daily_summary";
   "AUTO_STOP_MEETING_TRACKING"; "TOKEN_HEALTH_CHECK"].

(** The host fires the one-shot alarm [name] and removes it;
    [handleAlarm] loads the snapshot stored under the name of the alarm,
    dispatches it ([dispatch] stands for
    [NotificationManager.triggerAttention]) and then deletes it. The
    result is the event that was dispatched, if any. *)
Definition handleAlarm (dispatch : Event -> res unit) (name : string) (w : World)
  : World * res (option Event) :=
  if bool_decide (name ∈ systemAlarms) then (w, Ok None)
  else
    let w0 := Alarms.clear name w in
    if negb (JS.startsWith name ALARM_NAMES.MEETING_PREFIX) then (w0, Ok None)
    else
      match StorageManager.getEvent name w0 with
      | Some event =>
          match dispatch event with
          | Ok _ => (StorageManager.removeEvent name w0, Ok (Some event))
          | Throw e => (w0, Throw e)
          end
      | None => (w0, Ok None)
      end.

(** The loop of [deduplicateStoredEvents] over [chrome.alarms.getAll()]:
    every alarm whose name starts with ['meeting_'] is cleared. *)
Definition clearMeetingAlarms (w : World) : World :=
  {| alarms := filter (fun na => JS.startsWith na.1 "meeting_" = false) (alarms w);
     local := local w; events := events w; settings := settings w;
     apiStatus := apiStatus w; now := now w; badge := badge w |}.

(** [deduplicateStoredEvents]: nothing happens when the stored set has
    no duplicates; an exception is caught and logged. *)
Definition deduplicateStoredEvents (w : World) : World :=
  let evs := StorageManager.getEvents w in
  match deduplicateEvents evs with
  | Throw _ => w
  | Ok uniqueEvents =>
      if (length evs =? length uniqueEvents)%nat then w
      else
        let w1 := StorageManager.saveEvents uniqueEvents w in
        let w2 := clearMeetingAlarms w1 in
        fst (scheduleAll uniqueEvents w2)
  end.

(** [isMeetingUrl(url)] *)
Definition isMeetingUrl (url : option string) : bool :=
  match url with
  | None => false
  | Some u =>
      if String.eqb u "" then false
      else existsb (fun pattern => JS.includes u pattern)
             ["meet.google.com"; "zoom.us"; "teams.microsoft.com";
              "webex.com"; "gotomeeting.com"; "bluejeans.com"]
  end.

End Service.

(* ------------------------------------------------------------------ *)
(** ** src/utils/calendar-api.js *)

(** An item of the Microsoft Graph calendar view, as far as
    [parseOutlookEvents] reads it. [gi_start] is [item.start?.dateTime]
    (with its time zone) as the instant it denotes, [None] when the field
    is missing; [gi_link] is the result of [extractOutlookMeetingLink]. *)
Record GraphAttendee : Type := mkGraphAttendee {
  ga_address : option string;
  ga_response : option string      (* a.status?.response *)
}.

Record GraphItem : Type := mkGraphItem {
  gi_id : string;
  gi_subject : option string;
  gi_start : option instant;
  gi_end : option instant;
  gi_location : option string;
  gi_bodyPreview : option string;
  gi_link : option string;
  gi_attendees : option (list GraphAttendee)
}.

(** An item of the Google Calendar API, as far as [parseGoogleEvents]
    reads it. *)
Record GoogleAttendee : Type := mkGoogleAttendee {
  goa_email : option string;
  goa_responseStatus : option string;
  goa_self : option bool
}.

Record GoogleItem : Type := mkGoogleItem {
  go_id : option string;
  go_summary : option string;
  go_start : option instant;       (* item.start?.dateTime *)
  go_end : option instant;         (* item.end?.dateTime *)
  go_location : option string;
  go_description : option string;
  go_link : option string;         (* extractMeetingLink(item) *)
  go_attendees : option (list GoogleAttendee)
}.

(** The answer of the token endpoint to one request. *)
Record TokenResponse : Type := mkTokenResponse {
  access_token : option string;
  refresh_token : option string;
  expires_in : option Z
}.

Record ErrorBody : Type := mkErrorBody {
  error : option string;
  error_description : option string
}.

Inductive Body : Type :=
| TokensJson (t : TokenResponse)
| ErrorJson (e : ErrorBody)
| NotJson (message : string).       (* response.json() rejects *)

Inductive FetchResult : Type :=
| FetchRejected (message : string)  (* the request itself fails *)
| Response (ok : bool) (status : Z) (body : Body).

(** chrome.identity.getAuthToken({interactive: false}) *)
Inductive IdentityResult : Type :=
| GotToken (token : string)
| LastError (message : string)
| NoToken.

Inductive TokenEffect : Type :=
| DidFetch (attempt : nat)          (* fetch(GOOGLE_TOKEN_URL, ...) *)
| DidGetAuthToken (attempt : nat)
| DidSleep (ms : Z)
| DidNotify (calendarName : string). (* notifyTokenExpired *)

(** The record of one provider under the key ['calendarConnection']. *)
Record Connection : Type := mkConnection {
  connected : bool;
  accessToken : option string;
  refreshToken : option string;
  expiresAt : option Z;
  authMode : option string
}.

Record Credentials : Type := mkCredentials {
  clientId : option string;
  clientSecret : option string
}.

Module CalendarAPI.

Definition mapOutlookResponseStatus (status : option string) : string :=
  match status with
  | Some "accepted" => "accepted"
  | Some "tentativelyAccepted" => "tentative"
  | Some "declined" => "declined"
  | Some "notResponded" => "needsAction"
  | Some "none" => "needsAction"
  | _ => "needsAction"
  end.

Definition parseOutlookAttendee (a : GraphAttendee) : Attendee :=
  {| att_email := ga_address a;
     att_responseStatus := Some (mapOutlookResponseStatus (ga_response a));
     att_self := false |}.

(** [item.end?.dateTime + ...] is a string even when the field is
    missing, so [endTime] is always present, and an Invalid Date then. *)
Definition parseOutlookItem (item : GraphItem) : Event :=
  {| id := Some (String.append "outlook_" (gi_id item));
     title := Some (JS.orStr (gi_subject item) "Untitled Meeting");
     startTime := gi_start item;
     endTime := Some (default Invalid (gi_end item));
     attendees := Some (map parseOutlookAttendee (default [] (gi_attendees item)));
     meetingLink := gi_link item;
     description := Some (JS.orStr (gi_bodyPreview item) "");
     location := Some (JS.orStr (gi_location item) "");
     source := Some "outlook-api";
     hasConflict := false; conflictCount := 0 |}.

Definition parseOutlookEvents (items : list GraphItem) : list Event :=
  map parseOutlookItem
    (List.filter (fun item => bool_decide (is_Some (gi_start item))) items).

Definition parseGoogleAttendee (a : GoogleAttendee) : Attendee :=
  {| att_email := goa_email a;
     att_responseStatus := Some (JS.orStr (goa_responseStatus a) "needsAction");
     att_self := default false (goa_self a) |}.

Definition parseGoogleItem (item : GoogleItem) : Event :=
  {| id := go_id item;
     title := Some (JS.orStr (go_summary item) "Untitled Meeting");
     startTime := go_start item;
     endTime := go_end item;
     attendees := Some (map parseGoogleAttendee (default [] (go_attendees item)));
     meetingLink := go_link item;
     description := Some (JS.orStr (go_description item) "");
     location := Some (JS.orStr (go_location item) "");
     source := Some "google-api";
     hasConflict := false; conflictCount := 0 |}.

Definition parseGoogleEvents (items : list GoogleItem) : list Event :=
  map parseGoogleItem
    (List.filter (fun item => bool_decide (is_Some (go_start item))) items).

(** The message of the error thrown for a response that is not ok:
    [error.error_description || `Token refresh failed: ${response.status}`] *)
Definition failureMessage (status : Z) (body : Body) : string :=
  match body with
  | ErrorJson e =>
      JS.orStr (error_description e)
        (String.append "Token refresh failed: " (JS.intToString status))
  | TokensJson _ =>
      String.append "Token refresh failed: " (JS.intToString status)
  | NotJson message => message
  end.

(** The test of the catch block: 'Don't retry on auth errors
    (invalid_grant, etc.)'. *)
Definition isAuthError (message : string) : bool :=
  JS.includes message "invalid_grant" ||
  JS.includes message "expired" ||
  JS.includes message "revoked".

(** The loop of [refreshGoogleToken]; [left] counts the attempts that
    remain, [attempt] is the loop variable. A body that is not JSON on
    an ok response rejects the returned promise outside the try block. *)
Fixpoint refreshLoop (fetch : nat -> FetchResult) (retries attempt left : nat)
    (lastError : exn) : res TokenResponse * list TokenEffect :=
  match left with
  | O => (Throw lastError, [])
  | S left' =>
      let caught (message : string) :=
        if isAuthError message then (Throw (Error message), [])
        else
          let pause :=
            if (attempt <? retries)%nat
            then [DidSleep (2 ^ Z.of_nat attempt * 500)] else [] in
          let '(r, eff) :=
            refreshLoop fetch retries (S attempt) left' (Error message) in
          (r, pause ++ eff) in
      let '(r, eff) :=
        match fetch attempt with
        | FetchRejected message => caught message
        | Response true _ (TokensJson t) => (Ok t, [])
        | Response true _ (ErrorJson _) =>
            (Ok {| access_token := None; refresh_token := None; expires_in := None |}, [])
        | Response true _ (NotJson message) => (Throw (Error message), [])
        | Response false status body => caught (failureMessage status body)
        end in
      (r, DidFetch attempt :: eff)
  end.

Definition refreshGoogleToken (fetch : nat -> FetchResult) (retries : nat)
  : res TokenResponse * list TokenEffect :=
  refreshLoop fetch retries 1 retries Undefined.

(** [saveConnection('google', { connected: false })] *)
Definition disconnected : Connection :=
  {| connected := false; accessToken := None; refreshToken := None;
     expiresAt := None; authMode := None |}.

(** The retry loop of the simple mode, around chrome.identity. The
    result is the new token, if one was received. *)
Fixpoint simpleLoop (identity : nat -> IdentityResult) (maxRetries attempt left : nat)
  : option string * list TokenEffect :=
  match left with
  | O => (None, [])
  | S left' =>
      let caught (message : string) :=
        if JS.includes message "user" || JS.includes message "denied" ||
           JS.includes message "not signed in"
        then (None, [])
        else
          let pause :=
            if (attempt <? maxRetries)%nat
            then [DidSleep (2 ^ Z.of_nat attempt * 500)] else [] in
          let '(r, eff) := simpleLoop identity maxRetries (S attempt) left' in
          (r, pause ++ eff) in
      let '(r, eff) :=
        match identity attempt with
        | GotToken token =>
            if String.eqb token "" then caught "No token received"
            else (Some token, [])
        | LastError message => caught message
        | NoToken => caught "No token received"
        end in
      (r, DidGetAuthToken attempt :: eff)
  end.

(** [getValidToken]: the new record of Google under
    ['calendarConnection'], the token returned ([None] for null) and
    the effects, in order. *)
Definition getValidToken (fetch : nat -> FetchResult) (identity : nat -> IdentityResult)
    (nowMs : Z) (credentials : option Credentials) (stored : option Connection)
  : option Connection * option string * list TokenEffect :=
  match stored with
  | None => (stored, None, [])
  | Some googleConnection =>
      if negb (connected googleConnection) ||
         negb (JS.truthyStr (accessToken googleConnection))
      then (stored, None, [])
      else
        let expired :=
          match expiresAt googleConnection with
          | Some e => negb (e =? 0) && (e - 300000 <? nowMs)
          | None => false
          end in
        if negb expired then (stored, accessToken googleConnection, [])
        else if bool_decide (authMode googleConnection = Some "simple") then
          match simpleLoop identity 3 1 3 with
          | (Some newToken, eff) =>
              (Some {| connected := connected googleConnection;
                       accessToken := Some newToken;
                       refreshToken := refreshToken googleConnection;
                       expiresAt := Some (nowMs + 3600 * 1000);
                       authMode := authMode googleConnection |},
               Some newToken, eff)
          | (None, eff) =>
              (Some disconnected, None, eff ++ [DidNotify "Google Calendar"])
          end
        else if JS.truthyStr (refreshToken googleConnection) then
          if negb (JS.truthyStr (credentials ≫= clientId))
          then (Some disconnected, None, [DidNotify "Google Calendar"])
          else
            match refreshGoogleToken fetch 3 with
            | (Ok tokens, eff) =>
                (Some {| connected := connected googleConnection;
                         accessToken := access_token tokens;
                         refreshToken :=
                           if JS.truthyStr (refresh_token tokens)
                           then refresh_token tokens
                           else refreshToken googleConnection;
                         expiresAt := (fun s => nowMs + s * 1000) <$> expires_in tokens;
                         authMode := authMode googleConnection |},
                 access_token tokens, eff)
            | (Throw _, eff) =>
                (Some disconnected, None, eff ++ [DidNotify "Google Calendar"])
            end
        else (Some disconnected, None, [DidNotify "Google Calendar"])
  end.

(** [refreshOutlookToken]: the loop of [refreshGoogleToken] around a
    request to the Microsoft endpoint; the two differ in the URL and the
    parameters of the request only. *)
Definition refreshOutlookToken (fetch : nat -> FetchResult) (retries : nat)
  : res TokenResponse * list TokenEffect :=
  refreshLoop fetch retries 1 retries Undefined.

(** [getValidOutlookToken] *)
Definition getValidOutlookToken (fetch : nat -> FetchResult)
    (nowMs : Z) (credentials : option Credentials) (stored : option Connection)
  : option Connection * option string * list TokenEffect :=
  match stored with
  | None => (stored, None, [])
  | Some outlookConnection =>
      if negb (connected outlookConnection) ||
         negb (JS.truthyStr (accessToken outlookConnection))
      then (stored, None, [])
      else
        let expired :=
          match expiresAt outlookConnection with
          | Some e => negb (e =? 0) && (e - 300000 <? nowMs)
          | None => false
          end in
        if negb expired then (stored, accessToken outlookConnection, [])
        else if JS.truthyStr (refreshToken outlookConnection) then
          if negb (JS.truthyStr (credentials ≫= clientId))
          then (Some disconnected, None, [DidNotify "Outlook Calendar"])
          else
            match refreshOutlookToken fetch 3 with
            | (Ok tokens, eff) =>
                (Some {| connected := connected outlookConnection;
                         accessToken := access_token tokens;
                         refreshToken :=
                           if JS.truthyStr (refresh_token tokens)
                           then refresh_token tokens
                           else refreshToken outlookConnection;
                         expiresAt := (fun s => nowMs + s * 1000) <$> expires_in tokens;
                         authMode := authMode outlookConnection |},
                 access_token tokens, eff)
            | (Throw _, eff) =>
                (Some disconnected, None, eff ++ [DidNotify "Outlook Calendar"])
            end
        else (Some disconnected, None, [DidNotify "Outlook Calendar"])
  end.

End CalendarAPI.

(* ------------------------------------------------------------------ *)
(** ** src/background/notification-manager.js *)

(** The calls to the host that a dispatch can make. *)
Inductive Call : Type :=
| StorageSyncGet
| StorageLocalGet
| NotificationsCreate (notificationId title message : string) (joinButton : bool)
| WindowsGetCurrent
| WindowsCreate (top left : Z)
| RuntimeGetContexts
| OffscreenCreateDocument
| OffscreenCloseDocument
| SendMessage (type : string)
| SetBadgeText (text : string)
| SetBadgeBackgroundColor (color : string)
| TabsCreate (url : string)
| Sleep (ms : Z).

#[global] Instance Call_eq_dec : EqDecision Call.
Proof. solve_decision. Defined.

Record Window : Type := mkWindow {
  w_top : option Z; w_left : option Z; w_width : Z; w_height : Z
}.

(** The host during one dispatch. [rejects hist c = Some m]: after the
    calls [hist], the promise of the call [c] rejects with an error of
    message [m]. The other fields are what the successful calls return. *)
Record Host : Type := mkHost {
  rejects : list Call -> Call -> option string;
  hasGetContexts : bool;                   (* chrome.runtime.getContexts exists *)
  syncSettings : option Settings;          (* chrome.storage.sync, key 'settings' *)
  localSettings : option Settings;         (* chrome.storage.local, key 'settings' *)
  currentWindow : option Window;           (* chrome.windows.getCurrent() *)
  offscreenContexts : list Call -> nat     (* length of getContexts(...) *)
}.

(** The state a dispatch threads: the calls made so far, oldest first,
    and the static flag [StorageManager.useSyncStorage]. *)
Record DispatchState : Type := mkDispatchState {
  calls : list Call;
  useSyncStorage : bool
}.

Module NotificationManager.

Definition M (A : Type) : Type := DispatchState -> DispatchState * res A.

Definition ret {A : Type} (a : A) : M A := fun st => (st, Ok a).

Definition bind {A B : Type} (m : M A) (k : A -> M B) : M B :=
  fun st =>
    match m st with
    | (st', Ok a) => k a st'
    | (st', Throw e) => (st', Throw e)
    end.

Definition throw {A : Type} (e : exn) : M A := fun st => (st, Throw e).

(** [try { m } catch (error) { handler(error) }] *)
Definition tryCatch {A : Type} (m : M A) (handler : exn -> M A) : M A :=
  fun st =>
    match m st with
    | (st', Ok a) => (st', Ok a)
    | (st', Throw e) => handler e st'
    end.

Notation "'do' x <- m ; k" := (bind m (fun x => k))
  (at level 10, x name, m at level 100, k at level 200).
Notation "'run' m ; k" := (bind m (fun _ => k))
  (at level 10, m at level 100, k at level 200).

Definition record (c : Call) (st : DispatchState) : DispatchState :=
  {| calls := calls st ++ [c]; useSyncStorage := useSyncStorage st |}.

Definition messageOf (e : exn) : option string :=
  match e with
  | TypeError m => Some m
  | Error m => Some m
  | Undefined => None
  end.

Section WithHost.

Variable host : Host.

(** [await chrome.<api>(...)] *)
Definition await (c : Call) : M unit :=
  fun st =>
    match rejects host (calls st) c with
    | Some m => (record c st, Throw (Error m))
    | None => (record c st, Ok tt)
    end.

(** [await this.sleep(ms)] *)
Definition sleep (ms : Z) : M unit := fun st => (record (Sleep ms) st, Ok tt).

Definition setUseSyncStorage (b : bool) : M unit :=
  fun st => ({| calls := calls st; useSyncStorage := b |}, Ok tt).

(** [StorageManager.getSettings] *)
Definition getSettings : M Settings :=
  fun st =>
    let fallback : M Settings :=
      run await StorageLocalGet;
      ret (default DEFAULT_SETTINGS (localSettings host)) in
    if useSyncStorage st then
      tryCatch
        (run await StorageSyncGet;
         ret (default DEFAULT_SETTINGS (syncSettings host)))
        (fun _ => run setUseSyncStorage false; fallback) st
    else fallback st.

(** [settings.reminderMinutes || 2] *)
Definition minutesOr2 (s : Settings) : Z :=
  if reminderMinutes s =? 0 then 2 else reminderMinutes s.

(** The title of the OS notification. *)
Definition notificationTitle (reminderMinutes : Z) : string :=
  String.append "⏰ Meeting starting "
    (if reminderMinutes =? 1 then "in 1 minute!"
     else if reminderMinutes <? 60
     then String.append "in " (String.append (JS.intToString reminderMinutes) " minutes!")
     else
       let hours := reminderMinutes / 60 in
       let mins := reminderMinutes mod 60 in
       if 0 <? mins
       then String.append "in " (String.append (JS.intToString hours)
              (String.append "h " (String.append (JS.intToString mins) "m!")))
       else String.append "in " (String.append (JS.intToString hours)
              (String.append " hour" (String.append (if 1 <? hours then "s" else "") "!")))).

Definition showOSNotification (event : Event) : M string :=
  let notificationId := String.append "pingmeet_" (ConflictDetector.show (id event)) in
  do settings <- getSettings;
  let heading := notificationTitle (minutesOr2 settings) in
  run await (NotificationsCreate notificationId heading
               (JS.orStr (title event) "Untitled Meeting")
               (JS.truthyStr (meetingLink event)));
  ret notificationId.

(** [calculateOptimalWindowPosition]: never throws. *)
Definition calculateOptimalWindowPosition : M (Z * Z) :=
  tryCatch
    (run await WindowsGetCurrent;
     match currentWindow host with
     | Some {| w_top := Some wtop; w_left := Some wleft;
               w_width := width; w_height := height |} =>
         let windowWidth := 400 in
         let windowHeight := 280 in
         let left' := wleft + (width - windowWidth) / 2 in
         let top' := wtop + (height - windowHeight) / 3 in
         ret (Z.max 50 top', Z.max 50 left')
     | _ => ret (100, 100)
     end)
    (fun _ => ret (100, 100)).

Definition showReminderWindow (event : Event) : M unit :=
  tryCatch
    (do windowConfig <- calculateOptimalWindowPosition;
     await (WindowsCreate (fst windowConfig) (snd windowConfig)))
    (fun _ => ret tt).

Definition ensureOffscreenDocument : M unit :=
  do exists_ <-
    tryCatch
      (if hasGetContexts host then
         fun st =>
           (run await RuntimeGetContexts;
            ret (0 <? offscreenContexts host (calls st))%nat) st
       else ret false)
      (fun _ => ret false);
  if (exists_ : bool) then ret tt
  else
    tryCatch (await OffscreenCreateDocument)
      (fun error =>
         match messageOf error with
         | Some m =>
             if JS.includes m "single offscreen document" then ret tt
             else throw error
         | None => throw error
         end).

Definition recreateOffscreenDocument : M unit :=
  run tryCatch (await OffscreenCloseDocument) (fun _ => ret tt);
  tryCatch (await OffscreenCreateDocument) (fun error => throw error).

(** The common shape of [playSound] and [speakReminder]: the
    message is sent, and sent once more after the offscreen document
    has been made anew when the first send fails. *)
Definition sendThroughOffscreen (type : string) : M unit :=
  tryCatch
    (run ensureOffscreenDocument;
     run sleep 100;
     tryCatch (await (SendMessage type))
       (fun _ =>
          run recreateOffscreenDocument;
          run sleep 150;
          await (SendMessage type)))
    (fun _ => ret tt).

Definition playSound : M unit := sendThroughOffscreen "PLAY_SOUND".

(** The spoken text is not part of the model. *)
Definition speakReminder (event : Event) (settings : Settings) : M unit :=
  sendThroughOffscreen "SPEAK_REMINDER".

Fixpoint flashColors (colors : list string) : M unit :=
  match colors with
  | [] => ret tt
  | color :: rest =>
      run await (SetBadgeText "⏰");
      run await (SetBadgeBackgroundColor color);
      run sleep 300;
      flashColors rest
  end.

Definition flashBadge (reminderMinutes : Z) : M unit :=
  let colors :=
    [BADGE_COLORS.URGENT; BADGE_COLORS.WARNING; BADGE_COLORS.URGENT;
     BADGE_COLORS.WARNING; BADGE_COLORS.URGENT] in
  tryCatch
    (run flashColors colors;
     run await (SetBadgeText (String.append (JS.intToString reminderMinutes) "m"));
     await (SetBadgeBackgroundColor BADGE_COLORS.URGENT))
    (fun _ => ret tt).

(** The callback of [setTimeout(..., 500)]. *)
Definition autoOpenLater (url : string) : M unit :=
  run sleep 500;
  tryCatch (await (TabsCreate url)) (fun _ => ret tt).

Definition when (b : bool) (m : M unit) : M unit := if b then m else ret tt.

Definition triggerAttention (event : Event) : M unit :=
  do settings <- getSettings;
  (* 1. OS Notification (always) *)
  do _ <- showOSNotification event;
  (* 2. Popup Window *)
  run when (negb (bool_decide (cfg_showPopup settings = Some false)))
        (showReminderWindow event);
  (* 3. Sound *)
  run when (negb (bool_decide (cfg_playSound settings = Some false))) playSound;
  (* 4. Voice Reminder *)
  run when (cfg_voiceReminder settings) (speakReminder event settings);
  (* 5. Flash Badge *)
  run flashBadge (minutesOr2 settings);
  (* 6. Auto-open meeting (optional) *)
  when (cfg_autoOpen settings && JS.truthyStr (meetingLink event))
    (autoOpenLater (default "" (meetingLink event))).

End WithHost.

End NotificationManager.

(* ------------------------------------------------------------------ *)
(** ** The words of the design *)

Module Design.

(** A start time [s] is usable when [s] and [s] plus one hour are time
    values of a Date. *)
Definition usableStart (s : Z) : Prop :=
  Z.abs s <= Date.maxTime - TIME.ONE_HOUR_MS.

(** The end of an event in the words of the data model: the end time,
    or the start plus one hour when the end is absent. *)
Definition endOrDefault (s : Z) (e : option Z) : Z :=
  default (s + TIME.ONE_HOUR_MS) e.

(** The severity rule in the words of the design, on milliseconds:
    identical start instants are high; else an overlap longer than 30
    minutes is high, longer than 15 minutes medium, anything else low. *)
Definition severityRule (start1 start2 overlapMs : Z) : Severity :=
  if start1 =? start2 then high
  else if 30 * TIME.ONE_MINUTE_MS <? overlapMs then high
  else if 15 * TIME.ONE_MINUTE_MS <? overlapMs then medium
  else low.







(** The invariant of the loop of [deduplicateEvents]: the map [seen]
    is the index of the array [result] by key, and no two elements of
    [result] have the same key. *)
Definition indexed (st : gmap string Event * list Event) : Prop :=
  (forall k e, st.1 !! k = Some e <-> e ∈ st.2 /\ Service.dedupKey e = Ok k) /\
  NoDup (Service.dedupKey <$> st.2).

(** No two events of a list overlap. *)
Definition overlapFree (evs : list Event) : Prop :=
  ForallOrdPairs (fun a b => ConflictDetector.eventsOverlap a b = false) evs.

(** Every event of the list has a start time that parses. *)
Definition allStartsValid (evs : list Event) : Prop :=
  Forall (fun e => exists s, startTime e = Some (Valid s)) evs.

(** The events of a batch that pass the two filters of
    [handleNewEvents]. *)
Definition upcomingOf (w : World) (evs : list Event) : list Event :=
  List.filter (Service.isUpcoming (now w))
    (List.filter (Service.keptBySource (apiStatus w)) evs).

(** A failure of one refresh request that the loop retries: the
    request is rejected or answered with a status that is not ok, and
    the message of the error names no auth error. *)
Definition transient (r : FetchResult) : Prop :=
  match r with
  | FetchRejected message => CalendarAPI.isAuthError message = false
  | Response false status body =>
      CalendarAPI.isAuthError (CalendarAPI.failureMessage status body) = false
  | Response true _ _ => False
  end.

(** The requests among the effects of a refresh. *)
Definition fetches (eff : list TokenEffect) : list nat :=
  omap (fun x => match x with DidFetch a => Some a | _ => None end) eff.

(** The effects of the Google path read as effects of the Outlook
    path: the notification names the other calendar. *)
Definition asOutlook (x : TokenEffect) : TokenEffect :=
  match x with
  | DidNotify _ => DidNotify "Outlook Calendar"
  | _ => x
  end.

(** A channel catches its failures: from every state it returns
    normally. *)
Definition catchesAll {A : Type} (m : NotificationManager.M A) : Prop :=
  forall st, exists st' a, m st = (st', Ok a).

(** A step of a dispatch only adds calls to the record of calls. *)
Definition appendsOnly {A : Type} (m : NotificationManager.M A) : Prop :=
  forall st, exists l, calls (fst (m st)) = calls st ++ l.

(** The first thing a step does is the call [c]. *)
Definition begins {A : Type} (c : Call) (m : NotificationManager.M A) : Prop :=
  forall st, exists l, calls (fst (m st)) = calls st ++ c :: l.

(** The first call of the sound and speech channels. *)
Definition firstOffscreenCall (host : Host) : Call :=
  if hasGetContexts host then RuntimeGetContexts else OffscreenCreateDocument.

End Design.

Import Design.

(* ================================================================== *)
(** * Properties *)

(* ------------------------------------------------------------------ *)
(** ** Conflict detector *)

Lemma endOf_value (a : Event) (s : Z) (e : option Z) :
  usableStart s ->
  endTime a = Valid <$> e ->
  ConflictDetector.endOf a (Valid s) = Valid (endOrDefault s e).
Proof.
  unfold usableStart, ConflictDetector.endOf, endOrDefault, Date.maxTime, TIME.ONE_HOUR_MS.
  intros Hs ->. destruct e as [t|]; simpl; [reflexivity|].
  unfold Date.plus, Date.ofNumber, Date.maxTime.
  destruct (Z.leb_spec (Z.abs (s + 60 * 60 * 1000)) 8640000000000000); [reflexivity|lia].
Qed.

(** The comparison of the quotient in minutes with a whole number of
    minutes is the comparison of the milliseconds. *)
Lemma gtQ_minutes (d k : Z) :
  ConflictDetector.gtQ (Some (d # 60000)%Q) (inject_Z k) = (k * 60000 <? d).
Proof.
  unfold ConflictDetector.gtQ, Qle_bool, inject_Z. simpl.
  destruct (Z.leb_spec (d * 1) (k * 60000)), (Z.ltb_spec (k * 60000) d);
    simpl; try reflexivity; lia.
Qed.

(** C7. Two events overlap exactly when each starts strictly before the
    other ends, a missing end being the start plus one hour; the
    intervals are half-open: an event that ends at the instant the other
    starts does not overlap it. *)
Theorem eventsOverlap_half_open (a b : Event) (s1 s2 : Z) (e1 e2 : option Z) :
  startTime a = Some (Valid s1) -> startTime b = Some (Valid s2) ->
  endTime a = Valid <$> e1 -> endTime b = Valid <$> e2 ->
  usableStart s1 -> usableStart s2 ->
  (ConflictDetector.eventsOverlap a b = true <->
     s1 < endOrDefault s2 e2 /\ s2 < endOrDefault s1 e1) /\
  (endOrDefault s1 e1 = s2 -> ConflictDetector.eventsOverlap a b = false).
Proof.
  intros Ha Hb Hea Heb Hs1 Hs2.
  unfold ConflictDetector.eventsOverlap. rewrite Ha, Hb. simpl.
  rewrite (endOf_value a s1 e1 Hs1 Hea), (endOf_value b s2 e2 Hs2 Heb).
  simpl. split.
  - rewrite andb_true_iff, !Z.ltb_lt. reflexivity.
  - intros <-. rewrite (Z.ltb_irrefl (endOrDefault s1 e1)).
    apply andb_false_r.
Qed.

(** Witness of C7: 9:00-10:00 and 10:00-11:00 of 1 January 1970 touch
    but do not overlap. *)
Lemma eventsOverlap_half_open_witness :
  ConflictDetector.eventsOverlap
    (mkEvent (Some "a") (Some "A") (Some (Valid 32400000)) (Some (Valid 36000000))
       None None None None None false 0)
    (mkEvent (Some "b") (Some "B") (Some (Valid 36000000)) None
       None None None None None false 0) = false.
Proof.
  refine (proj2 (eventsOverlap_half_open _ _ 32400000 36000000
                   (Some 36000000) None _ _ _ _ _ _) _);
    try reflexivity; unfold usableStart, Date.maxTime, TIME.ONE_HOUR_MS; lia.
Defined.

(** C8. The severity of a pair is high when the two start instants are
    the same; otherwise it is high when the overlap is longer than 30
    minutes, medium when longer than 15 minutes and low otherwise. This
    holds for every pair with usable times, overlapping or not. *)
Theorem calculateSeverity_bands (a b : Event) (s1 s2 : Z) (e1 e2 : option Z) :
  startTime a = Some (Valid s1) -> startTime b = Some (Valid s2) ->
  endTime a = Valid <$> e1 -> endTime b = Valid <$> e2 ->
  usableStart s1 -> usableStart s2 ->
  ConflictDetector.calculateSeverity a b =
    severityRule s1 s2
      (Z.min (endOrDefault s1 e1) (endOrDefault s2 e2) - Z.max s1 s2).
Proof.
  intros Ha Hb Hea Heb Hs1 Hs2.
  unfold ConflictDetector.calculateSeverity, severityRule. rewrite Ha, Hb. simpl.
  destruct (s1 =? s2); [reflexivity|].
  rewrite (endOf_value a s1 e1 Hs1 Hea), (endOf_value b s2 e2 Hs2 Heb).
  unfold ConflictDetector.overlapMinutes, Date.max, Date.min.
  change 30%Q with (inject_Z 30). change 15%Q with (inject_Z 15).
  rewrite !gtQ_minutes. reflexivity.
Qed.

(** Witness of C8: 9:00-10:00 against 9:30-10:30 overlap for exactly 30
    minutes and have distinct starts; the severity is medium. *)
Lemma calculateSeverity_bands_witness :
  ConflictDetector.calculateSeverity
    (mkEvent (Some "a") (Some "A") (Some (Valid 32400000)) (Some (Valid 36000000))
       None None None None None false 0)
    (mkEvent (Some "b") (Some "B") (Some (Valid 34200000)) (Some (Valid 37800000))
       None None None None None false 0) = medium.
Proof.
  rewrite (calculateSeverity_bands _ _ 32400000 34200000
             (Some 36000000) (Some 37800000));
    try reflexivity; unfold usableStart, Date.maxTime, TIME.ONE_HOUR_MS; lia.
Defined.

(* ------------------------------------------------------------------ *)
(** ** Identity keys *)

Lemma digitChar_not_underscore (k : Z) :
  0 <= k < 10 -> JS.digitChar k <> "_"%char.
Proof.
  intros Hk. unfold JS.digitChar.
  assert (Hn : (Z.to_nat k < 10)%nat) by lia.
  destruct (Z.to_nat k) as [|[|[|[|[|[|[|[|[|[|n]]]]]]]]]];
    try discriminate; lia.
Qed.

Lemma digitsFuel_no_underscore (fuel : nat) :
  forall (n : Z) (acc : string),
    ~ In "_"%char (list_ascii_of_string acc) ->
    ~ In "_"%char (list_ascii_of_string (JS.digitsFuel fuel n acc)).
Proof.
  induction fuel as [|fuel IH]; intros n acc Hacc; simpl; [exact Hacc|].
  assert (Hacc' : ~ In "_"%char
            (list_ascii_of_string (String (JS.digitChar (n mod 10)) acc))).
  { simpl. intros [Hc|Hc]; [|exact (Hacc Hc)].
    apply (digitChar_not_underscore (n mod 10)); [|exact Hc].
    apply Z.mod_pos_bound. lia. }
  destruct (n / 10 =? 0); [exact Hacc'|]. apply IH. exact Hacc'.
Qed.

Lemma intToString_no_underscore (n : Z) :
  ~ In "_"%char (list_ascii_of_string (JS.intToString n)).
Proof.
  unfold JS.intToString. destruct (n <? 0).
  - cbn [list_ascii_of_string In]. intros [Hc|Hc]; [discriminate Hc|].
    revert Hc. apply digitsFuel_no_underscore. simpl. tauto.
  - apply digitsFuel_no_underscore. simpl. tauto.
Qed.

Lemma roundedTime_no_underscore (i : instant) :
  ~ In "_"%char (list_ascii_of_string (Service.roundedTime i)).
Proof.
  destruct i as [t|]; simpl.
  - apply intToString_no_underscore.
  - intros H. repeat (destruct H as [H|H]; [discriminate H|]). exact H.
Qed.

Lemma append_empty_l (s : string) : String.append "" s = s.
Proof. reflexivity. Qed.

Lemma append_String_l (c : ascii) (t s : string) :
  String.append (String c t) s = String c (String.append t s).
Proof. reflexivity. Qed.

Lemma separator_in_key (t r : string) :
  In "_"%char (list_ascii_of_string (String.append t (String.append "_" r))).
Proof.
  induction t as [|c t IHt].
  - rewrite append_empty_l, append_String_l. left. reflexivity.
  - rewrite append_String_l. right. exact IHt.
Qed.

(** A key [t ++ "_" ++ r] whose tail [r] has no underscore splits in one
    way only: at its last underscore. *)
Lemma key_split_unique (t1 : string) :
  forall (t2 r1 r2 : string),
    ~ In "_"%char (list_ascii_of_string r1) ->
    ~ In "_"%char (list_ascii_of_string r2) ->
    String.append t1 (String.append "_" r1) = String.append t2 (String.append "_" r2) ->
    t1 = t2 /\ r1 = r2.
Proof.
  induction t1 as [|c t1 IH]; intros [|c2 t2] r1 r2 H1 H2 Heq;
    rewrite ?append_empty_l, ?append_String_l in Heq.
  - rewrite ?append_empty_l in Heq. injection Heq as ->. split; reflexivity.
  - rewrite ?append_empty_l in Heq. injection Heq as <- ->.
    exfalso. apply H1. apply separator_in_key.
  - rewrite ?append_empty_l in Heq. injection Heq as -> <-.
    exfalso. apply H2. apply separator_in_key.
  - injection Heq as -> Heq. destruct (IH t2 r1 r2 H1 H2 Heq) as [-> ->].
    split; reflexivity.
Qed.

Lemma orStr_empty (t : string) : JS.orStr (Some t) "" = t.
Proof.
  unfold JS.orStr, JS.truthyStr. destruct (String.eqb_spec t ""); simpl; congruence.
Qed.

(** The half of the agreement of the two keys that the code keeps: two
    events that the Reconciler files under one key get one trigger name
    from the Scheduler. (The converse fails: the Scheduler also turns
    every run of white space inside the title into a dash, and
    [deduplicateEvents] does not.) *)
Lemma dedupKey_eq_alarmName_eq (a b : Event) (k : string) :
  Service.dedupKey a = Ok k -> Service.dedupKey b = Ok k ->
  Service.alarmName a = Service.alarmName b.
Proof.
  unfold Service.dedupKey, Service.alarmName.
  destruct (title a) as [ta|]; [|discriminate].
  destruct (title b) as [tb|]; [|discriminate].
  intros [= Ha] [= Hb]. rewrite <- Hb in Ha.
  apply key_split_unique in Ha; try apply roundedTime_no_underscore.
  destruct Ha as [Ht Hr]. rewrite !orStr_empty, Ht, Hr. reflexivity.
Qed.

(** 'Team Sync' from two producers, 123 ms apart in the same minute. *)
Lemma dedupKey_eq_alarmName_eq_witness :
  Service.alarmName
    (mkEvent (Some "g1") (Some "Team Sync") (Some (Valid 1700000040000)) None
       None None None None (Some "google-api") false 0) =
  Service.alarmName
    (mkEvent (Some "outlook_7") (Some " team sync ") (Some (Valid 1700000040123)) None
       None None None None (Some "outlook-api") false 0).
Proof.
  apply (dedupKey_eq_alarmName_eq _ _ "team sync_1700000040000"); reflexivity.
Defined.

(** C3 at its failing input: 'Team Sync' and 'Team  Sync' (two spaces)
    at the same instant get the same trigger name from
    [scheduleReminder] and different keys from [deduplicateEvents],
    which does not collapse the white space inside a title: the two
    layers do not agree on them. *)
Lemma reconciler_scheduler_keys_disagree :
  let a := mkEvent (Some "g1") (Some "Team Sync") (Some (Valid 1700000040000)) None
             None None None None (Some "google-dom") false 0 in
  let b := mkEvent (Some "g2") (Some "Team  Sync") (Some (Valid 1700000040000)) None
             None None None None (Some "google-dom") false 0 in
  ~ (Service.dedupKey a = Service.dedupKey b <->
     Service.alarmName a = Service.alarmName b).
Proof.
  intros a b [_ H]. specialize (H eq_refl). vm_compute in H. discriminate H.
Qed.

(** What the disagreement does to a batch that holds the two reports:
    [handleNewEvents] stores the meeting twice, flags each of the two
    as in conflict with the other, and schedules one reminder, with the
    snapshot of the report that came first. *)
Lemma whitespace_variant_is_stored_twice :
  let w := mkWorld ∅ ∅ [] DEFAULT_SETTINGS (mkApiStatus false false)
             1699999000000 (mkBadge "" "") in
  let report (i t : string) (conflict : bool) (n : nat) :=
    mkEvent (Some i) (Some t) (Some (Valid 1700000040000)) None
      None None None None (Some "google-dom") conflict n in
  let w' := fst (Service.handleNewEvents
                   [report "g1" "Team Sync" false 0%nat;
                    report "g2" "Team  Sync" false 0%nat] w) in
  snd (Service.handleNewEvents
         [report "g1" "Team Sync" false 0%nat;
          report "g2" "Team  Sync" false 0%nat] w) =
    Ok [Scheduled "meeting_team-sync_1700000040000" 1699999920000; AlreadyScheduled] /\
  events w' = [report "g1" "Team Sync" true 1%nat; report "g2" "Team  Sync" true 1%nat] /\
  StorageManager.getEvent "meeting_team-sync_1700000040000" w' =
    Some (report "g1" "Team Sync" true 1%nat) /\
  badge w' = mkBadge "2" BADGE_COLORS.WARNING.
Proof. vm_compute. repeat split; reflexivity. Qed.

(* ------------------------------------------------------------------ *)
(** ** Reconciliation *)



(** [indexOf] finds the object that [seen] holds: under the invariant
    the element found is the only element of [result] with that key,
    so comparing by structure and comparing by reference agree. *)
Lemma indexOf_indexed (seen : gmap string Event) (result : list Event)
    (k : string) (existing : Event) :
  indexed (seen, result) -> seen !! k = Some existing ->
  exists i, Service.indexOf result existing = Some i /\
            result !! i = Some existing /\
            forall j e, result !! j = Some e -> Service.dedupKey e = Ok k -> j = i.
Proof.
  intros [Hidx Hnd] Hk. cbn [fst snd] in *.
  destruct (proj1 (Hidx k existing) Hk) as [Hin Hkey].
  destruct (list_find_elem_of (fun x => x = existing) result existing Hin eq_refl)
    as [[i x] Hfind].
  pose proof (proj1 (list_find_Some _ _ _ _) Hfind) as (Hi & -> & _).
  exists i. unfold Service.indexOf. rewrite Hfind. split; [reflexivity|].
  split; [exact Hi|]. intros j e Hj He.
  apply (NoDup_lookup _ j i (Ok k) Hnd); rewrite list_lookup_fmap.
  - rewrite Hj. cbn. congruence.
  - rewrite Hi. cbn. congruence.
Qed.

(** One turn of the loop keeps the invariant and adds nothing but the
    event it was given. *)
Lemma dedupStep_indexed (st st' : gmap string Event * list Event) (event : Event) :
  indexed st -> Service.dedupStep st event = Ok st' ->
  indexed st' /\ forall e, e ∈ st'.2 -> e ∈ st.2 \/ e = event.
Proof.
  destruct st as [seen result]. intros Hinv. pose proof Hinv as [Hidx Hnd].
  cbn [fst snd] in Hidx, Hnd. unfold Service.dedupStep.
  destruct (Service.dedupKey event) as [k|] eqn:Hkey; [|discriminate].
  cbn [bindRes]. destruct (seen !! k) as [existing|] eqn:Hseen.
  - destruct (indexOf_indexed seen result k existing Hinv Hseen)
      as (i & Hio & Hi & Huniq).
    rewrite Hio. destruct (Service.hasMoreDetails event existing);
      intros [= <-]; [|split; [exact Hinv|auto]].
    assert (Hlt : (i < length result)%nat) by (eapply lookup_lt_Some; exact Hi).
    assert (Hke : Service.dedupKey existing = Ok k)
      by exact (proj2 (proj1 (Hidx k existing) Hseen)).
    unfold indexed. cbn [fst snd]. split; [split|].
    + intros k' e'. rewrite list_elem_of_lookup. split.
      * destruct (decide (k = k')) as [<-|Hne].
        -- rewrite lookup_insert_eq. intros [= <-].
           split; [|exact Hkey]. exists i. apply list_lookup_insert_eq. exact Hlt.
        -- rewrite lookup_insert_ne by exact Hne. intros He'.
           destruct (proj1 (Hidx k' e') He') as [[j Hj]%list_elem_of_lookup Hk'].
           split; [|exact Hk']. exists j. rewrite list_lookup_insert_ne; [exact Hj|].
           intros <-. congruence.
      * intros [[j Hj] Hk']. rewrite list_lookup_insert in Hj.
        destruct (decide (i = j /\ (i < length result)%nat)) as [[<- _]|Hnot].
        -- injection Hj as <-. rewrite Hkey in Hk'. injection Hk' as <-.
           apply lookup_insert_eq.
        -- destruct (decide (k = k')) as [<-|Hne].
           ++ exfalso. apply Hnot. split; [|exact Hlt]. symmetry.
              exact (Huniq j e' Hj Hk').
           ++ rewrite lookup_insert_ne by exact Hne.
              apply Hidx. split; [|exact Hk']. eapply list_elem_of_lookup_2. exact Hj.
    + rewrite list_fmap_insert, list_insert_id; [exact Hnd|].
      rewrite list_lookup_fmap, Hi, Hkey. cbn.
      f_equal. exact Hke.
    + intros e [j Hj]%list_elem_of_lookup. rewrite list_lookup_insert in Hj.
      destruct (decide (i = j /\ (i < length result)%nat)).
      * right. congruence.
      * left. eapply list_elem_of_lookup_2. exact Hj.
  - intros [= <-]. unfold indexed. cbn [fst snd]. split; [split|].
    + intros k' e'. rewrite elem_of_app, list_elem_of_singleton.
      destruct (decide (k = k')) as [<-|Hne].
      * rewrite lookup_insert_eq. split.
        -- intros [= <-]. auto.
        -- intros [[Hin| ->] Hk']; [|reflexivity].
           pose proof (proj2 (Hidx k e') (conj Hin Hk')). congruence.
      * rewrite lookup_insert_ne by exact Hne. rewrite Hidx. split.
        -- intros [Hin Hk']. auto.
        -- intros [[Hin| ->] Hk']; [auto|congruence].
    + rewrite fmap_app. apply NoDup_app. split; [exact Hnd|]. split.
      * intros x Hx [= ->]%list_elem_of_singleton.
        apply list_elem_of_fmap in Hx as (e & He & Hin). rewrite Hkey in He.
        pose proof (proj2 (Hidx k e) (conj Hin (eq_sym He))). congruence.
      * apply NoDup_singleton.
    + intros e [Hin| ->%list_elem_of_singleton]%elem_of_app; auto.
Qed.

Lemma dedupLoop_indexed (evs : list Event) :
  forall st st', indexed st -> Service.dedupLoop evs st = Ok st' ->
    indexed st' /\ forall e, e ∈ st'.2 -> e ∈ st.2 \/ e ∈ evs.
Proof.
  induction evs as [|event evs IH]; intros st st' Hinv; cbn [Service.dedupLoop].
  - intros [= <-]. auto.
  - destruct (Service.dedupStep st event) as [st1|] eqn:Hstep; [|discriminate].
    cbn [bindRes]. intros Hloop.
    destruct (dedupStep_indexed st st1 event Hinv Hstep) as [Hinv1 Hsub1].
    destruct (IH st1 st' Hinv1 Hloop) as [Hinv' Hsub]. split; [exact Hinv'|].
    intros e He. destruct (Hsub e He) as [H1|H1].
    + destruct (Hsub1 e H1) as [H2| ->]; [auto|]. right. left.
    + right. right. exact H1.
Qed.

(** The reconciled set holds one event per identity key, and each of
    its events is an event of the batch. *)
Lemma deduplicateEvents_one_per_key (evs result : list Event) :
  Service.deduplicateEvents evs = Ok result ->
  NoDup (Service.dedupKey <$> result) /\ forall e, e ∈ result -> e ∈ evs.
Proof.
  unfold Service.deduplicateEvents.
  destruct (Service.dedupLoop evs (∅, [])) as [st|] eqn:Hloop; [|discriminate].
  cbn [bindRes]. intros [= <-].
  assert (Hinit : indexed (∅, [])).
  { split; cbn [fst snd].
    - intros k e. rewrite lookup_empty. split; [discriminate|].
      intros [Hin _]. inversion Hin.
    - constructor. }
  destruct (dedupLoop_indexed evs _ _ Hinit Hloop) as [[_ Hnd] Hsub].
  split; [exact Hnd|]. intros e He. destruct (Hsub e He) as [H|H]; [inversion H|exact H].
Qed.




(* ------------------------------------------------------------------ *)
(** ** Scheduling *)

(** What one call of [scheduleReminder] does to the world: it creates
    one alarm, under the derived name and only when no alarm of that name
    is live, or it changes nothing. *)
Lemma scheduleReminder_effect (e : Event) (w : World) :
  match snd (Service.scheduleReminder e w) with
  | Scheduled n t =>
      n = Service.alarmName e /\ alarms w !! n = None /\
      fst (Service.scheduleReminder e w) =
        StorageManager.saveEvent n e (Alarms.create n t w)
  | _ => fst (Service.scheduleReminder e w) = w
  end.
Proof.
  unfold Service.scheduleReminder.
  destruct (startTime e) as [st|]; [|reflexivity].
  destruct (Service.userDeclined e); [reflexivity|].
  unfold Alarms.get.
  destruct (alarms w !! Service.alarmName e) eqn:Hget; [reflexivity|].
  destruct (Date.plus _ _) as [t|]; [|reflexivity].
  destruct (now w <? t); [|reflexivity].
  cbn. auto.
Qed.

(** The query by name: with a live alarm of the derived name the call is
    a no-op. *)
Lemma scheduleReminder_live_noop (e : Event) (w : World) :
  is_Some (alarms w !! Service.alarmName e) ->
  fst (Service.scheduleReminder e w) = w /\
  forall n t, snd (Service.scheduleReminder e w) <> Scheduled n t.
Proof.
  intros [t0 Hlive]. unfold Service.scheduleReminder.
  destruct (startTime e) as [st|]; [|split; [reflexivity|discriminate]].
  destruct (Service.userDeclined e); [split; [reflexivity|discriminate]|].
  unfold Alarms.get. rewrite Hlive. split; [reflexivity|discriminate].
Qed.

(** A live alarm is never replaced nor removed by [scheduleReminder]. *)
Lemma scheduleReminder_keeps (e : Event) (w : World) (n : string) (t : Z) :
  alarms w !! n = Some t ->
  alarms (fst (Service.scheduleReminder e w)) !! n = Some t.
Proof.
  intros Hn. pose proof (scheduleReminder_effect e w) as He.
  destruct (snd (Service.scheduleReminder e w)) as [| | |m tm|];
    try (rewrite He; exact Hn).
  destruct He as (-> & Hfree & ->). cbn.
  rewrite lookup_insert_ne; [exact Hn|]. congruence.
Qed.

Lemma scheduleAll_cons (e : Event) (es : list Event) (w : World) :
  Service.scheduleAll (e :: es) w =
    (fst (Service.scheduleAll es (fst (Service.scheduleReminder e w))),
     snd (Service.scheduleReminder e w) ::
     snd (Service.scheduleAll es (fst (Service.scheduleReminder e w)))).
Proof.
  cbn [Service.scheduleAll].
  destruct (Service.scheduleReminder e w) as [w1 o]. cbn [fst snd].
  destruct (Service.scheduleAll es w1) as [w2 os]. reflexivity.
Qed.

(** A walk over any list of events keeps a live alarm as it is and does
    not schedule its name again. *)
Lemma scheduleAll_keeps (es : list Event) :
  forall (w : World) (n : string) (t : Z),
    alarms w !! n = Some t ->
    alarms (fst (Service.scheduleAll es w)) !! n = Some t /\
    forall t', ~ In (Scheduled n t') (snd (Service.scheduleAll es w)).
Proof.
  induction es as [|e es IH]; intros w n t Hn.
  - cbn. auto.
  - rewrite scheduleAll_cons. cbn [fst snd].
    destruct (IH _ n t (scheduleReminder_keeps e w n t Hn)) as [Hkeep Hno].
    split; [exact Hkeep|].
    intros t' [Hhead|Htail]; [|exact (Hno t' Htail)].
    pose proof (scheduleReminder_effect e w) as He. rewrite Hhead in He.
    destruct He as (_ & Hfree & _). congruence.
Qed.

(** C1. Once [scheduleReminder] has created the trigger of a meeting, a
    second call for the same meeting (an event with the same derived
    name) creates nothing: neither directly, nor after a restart in which
    only the durable timers are known to survive and the stored event set
    is walked again. The live trigger stays the one that was created. *)
Theorem scheduleReminder_at_most_one_trigger
    (e1 e2 : Event) (w w' : World) (n : string) (t : Z) :
  Service.alarmName e1 = Service.alarmName e2 ->
  snd (Service.scheduleReminder e1 w) = Scheduled n t ->
  alarms w' = alarms (fst (Service.scheduleReminder e1 w)) ->
  let rewalked := Service.loadStoredEvents w' in
  n = Service.alarmName e1 /\
  (* the direct second call *)
  Service.scheduleReminder e2 w' = (w', snd (Service.scheduleReminder e2 w')) /\
  (forall m t', snd (Service.scheduleReminder e2 w') <> Scheduled m t') /\
  (* the walk over the stored events after a restart *)
  alarms (fst rewalked) !! n = Some t /\
  (forall t', ~ In (Scheduled n t') (snd rewalked)) /\
  (* the second call after that walk *)
  fst (Service.scheduleReminder e2 (fst rewalked)) = fst rewalked /\
  (forall m t', snd (Service.scheduleReminder e2 (fst rewalked)) <> Scheduled m t').
Proof.
  intros Hname Hfirst Hdurable rewalked.
  pose proof (scheduleReminder_effect e1 w) as He. rewrite Hfirst in He.
  destruct He as (Hn & _ & Hw1).
  assert (Hlive : alarms w' !! n = Some t).
  { rewrite Hdurable, Hw1. cbn. apply lookup_insert_eq. }
  assert (Hlive2 : is_Some (alarms w' !! Service.alarmName e2)).
  { rewrite <- Hname, <- Hn, Hlive. eauto. }
  destruct (scheduleReminder_live_noop e2 w' Hlive2) as [Hnoop Hnot].
  destruct (scheduleAll_keeps (StorageManager.getEvents w') w' n t Hlive)
    as [Hkeep Hnone].
  assert (Hlive3 : is_Some (alarms (fst rewalked) !! Service.alarmName e2)).
  { rewrite <- Hname, <- Hn. unfold rewalked, Service.loadStoredEvents.
    rewrite Hkeep. eauto. }
  destruct (scheduleReminder_live_noop e2 (fst rewalked) Hlive3) as [Hnoop3 Hnot3].
  repeat split; try assumption.
  rewrite <- Hnoop at 2. apply surjective_pairing.
Qed.

(** Witness of C1: 'Team Sync' reported by the Google API is scheduled
    two minutes before its start; the worker restarts five minutes
    later with the Outlook report of the same meeting in the stored set.
    The walk leaves the one trigger in place and schedules nothing. *)
Lemma scheduleReminder_at_most_one_trigger_witness :
  let e1 := mkEvent (Some "g1") (Some "Team Sync") (Some (Valid 1700000040000)) None
              None None None None (Some "google-api") false 0 in
  let e2 := mkEvent (Some "outlook_7") (Some "team sync") (Some (Valid 1700000040123)) None
              None None None None (Some "outlook-api") false 0 in
  let w := mkWorld ∅ ∅ [] DEFAULT_SETTINGS (mkApiStatus true true)
             1699999000000 (mkBadge "" "") in
  let w1 := fst (Service.scheduleReminder e1 w) in
  let w' := mkWorld (alarms w1) (local w1) [e2; e1] DEFAULT_SETTINGS
              (mkApiStatus true true) 1699999300000 (mkBadge "" "") in
  alarms (fst (Service.loadStoredEvents w')) !! "meeting_team-sync_1700000040000"
    = Some 1699999920000 /\
  (forall t', ~ In (Scheduled "meeting_team-sync_1700000040000" t')
                (snd (Service.loadStoredEvents w'))).
Proof.
  intros e1 e2 w w1 w'.
  destruct (scheduleReminder_at_most_one_trigger e1 e2 w w'
              "meeting_team-sync_1700000040000" 1699999920000)
    as (_ & _ & _ & Hkeep & Hnone & _).
  - vm_compute. reflexivity.
  - vm_compute. reflexivity.
  - reflexivity.
  - split; [exact Hkeep|exact Hnone].
Defined.

(* ------------------------------------------------------------------ *)
(** ** Declined meetings *)

(** The gate of [scheduleReminder]: an event whose own attendee entry
    (the first one marked [self]) is declined is never scheduled. *)
Lemma scheduleReminder_declined_noop (e : Event) (w : World) :
  Service.userDeclined e = true ->
  fst (Service.scheduleReminder e w) = w /\
  forall n t, snd (Service.scheduleReminder e w) <> Scheduled n t.
Proof.
  intros Hd. unfold Service.scheduleReminder. rewrite Hd.
  destruct (startTime e); split; try reflexivity; discriminate.
Qed.

Lemma find_self_parseOutlook (l : list GraphAttendee) :
  List.find att_self (map CalendarAPI.parseOutlookAttendee l) = None.
Proof. induction l as [|a l IH]; [reflexivity|exact IH]. Qed.

(** No event that [parseOutlookEvents] builds has an attendee marked
    [self], so the gate never closes on an event of the Outlook API,
    whatever the response of the user was. *)
Lemma parseOutlookEvents_never_declined (items : list GraphItem) (e : Event) :
  In e (CalendarAPI.parseOutlookEvents items) -> Service.userDeclined e = false.
Proof.
  unfold CalendarAPI.parseOutlookEvents. rewrite in_map_iff.
  intros (item & <- & _).
  unfold Service.userDeclined, Service.userAttendee. cbn.
  rewrite find_self_parseOutlook. reflexivity.
Qed.

(** C4 at its failing input. A meeting of the Outlook calendar whose
    only attendee, the user, has declined: [parseOutlookEvents] copies
    the response but marks no attendee as [self], and
    [scheduleReminder] creates the trigger. The same meeting reported by
    the Google API, where the entry of the user carries [self], is
    skipped. *)
Lemma outlook_declined_meeting_is_scheduled :
  let w := mkWorld ∅ ∅ [] DEFAULT_SETTINGS (mkApiStatus true true)
             1699999000000 (mkBadge "" "") in
  let outlookItem :=
    mkGraphItem "AAMk1" (Some "Budget Review") (Some (Valid 1700000040000))
      (Some (Valid 1700003640000)) None None None
      (Some [mkGraphAttendee (Some "me@contoso.com") (Some "declined")]) in
  let googleItem :=
    mkGoogleItem (Some "g1") (Some "Budget Review") (Some (Valid 1700000040000))
      (Some (Valid 1700003640000)) None None None
      (Some [mkGoogleAttendee (Some "me@contoso.com") (Some "declined") (Some true)]) in
  (attendees <$> CalendarAPI.parseOutlookEvents [outlookItem]) =
    [Some [mkAttendee (Some "me@contoso.com") (Some "declined") false]] /\
  map (fun e => snd (Service.scheduleReminder e w))
      (CalendarAPI.parseOutlookEvents [outlookItem]) =
    [Scheduled "meeting_budget-review_1700000040000" 1699999920000] /\
  map (fun e => snd (Service.scheduleReminder e w))
      (CalendarAPI.parseGoogleEvents [googleItem]) = [DeclinedSkipped].
Proof. vm_compute. repeat split; reflexivity. Qed.

(* ------------------------------------------------------------------ *)
(** ** Decline entry point *)

Lemma append_prefix_inj (p s1 s2 : string) :
  String.append p s1 = String.append p s2 -> s1 = s2.
Proof.
  induction p as [|c p IH]; rewrite ?append_empty_l, ?append_String_l.
  - auto.
  - intros [= H]. exact (IH H).
Qed.

Lemma append_length (s1 s2 : string) :
  String.length (String.append s1 s2) = (String.length s1 + String.length s2)%nat.
Proof.
  induction s1 as [|c s1 IH]; rewrite ?append_empty_l, ?append_String_l.
  - reflexivity.
  - cbn [String.length]. rewrite IH. reflexivity.
Qed.

(** The decline entry point never consumes a scheduled reminder: for no
    identifier does [handleDecline] remove both the alarm that
    [scheduleReminder] created and the snapshot it stored. The alarm is
    cleared under [meeting_<id>] and the snapshot under [alarm_<id>],
    while they were created under [meeting_<title>_<minute>] and
    [alarm_meeting_<title>_<minute>]. *)
Lemma handleDecline_keeps_trigger_or_snapshot
    (e : Event) (w : World) (n : string) (t : Z) (eventId : string) :
  snd (Service.scheduleReminder e w) = Scheduled n t ->
  let w2 := Service.handleDecline eventId (fst (Service.scheduleReminder e w)) in
  alarms w2 !! n = Some t \/ StorageManager.getEvent n w2 = Some e.
Proof.
  intros Hs w2. pose proof (scheduleReminder_effect e w) as He.
  rewrite Hs in He. destruct He as (Hn & _ & Hw1).
  subst w2. rewrite Hw1. unfold Service.handleDecline, StorageManager.getEvent. cbn.
  destruct (decide (eventId = n)) as [->|Hne].
  - left. rewrite lookup_delete_ne, lookup_insert_eq; [reflexivity|].
    intros Heq. apply (f_equal String.length) in Heq.
    rewrite append_length in Heq. cbn in Heq. lia.
  - right. rewrite lookup_delete_ne, lookup_insert_eq; [reflexivity|].
    unfold StorageManager.eventKey. intros Heq.
    apply append_prefix_inj in Heq. congruence.
Qed.

(** C5 at its failing input. 'Standup' with identifier [evt-42] is
    scheduled; the decline entry point is called with that identifier.
    Nothing changes: the alarm stays live and the snapshot stays stored,
    and when the alarm fires the reminder is dispatched. *)
Lemma decline_leaves_reminder_armed :
  let e := mkEvent (Some "evt-42") (Some "Standup") (Some (Valid 1700000040000)) None
             None None None None (Some "google-api") false 0 in
  let w := mkWorld ∅ ∅ [] DEFAULT_SETTINGS (mkApiStatus true true)
             1699999000000 (mkBadge "" "") in
  let w1 := fst (Service.scheduleReminder e w) in
  let w2 := Service.handleDecline "evt-42" w1 in
  snd (Service.scheduleReminder e w) = Scheduled "meeting_standup_1700000040000" 1699999920000 /\
  w2 = w1 /\
  Alarms.get "meeting_standup_1700000040000" w2 = Some 1699999920000 /\
  StorageManager.getEvent "meeting_standup_1700000040000" w2 = Some e /\
  snd (Service.handleAlarm (fun _ => Ok tt) "meeting_standup_1700000040000" w2) =
    Ok (Some e).
Proof. vm_compute. repeat split; reflexivity. Qed.

(* ------------------------------------------------------------------ *)
(** ** Token refresh *)

(** When the message of the first failure names an auth error, the
    refresh stops after that one request. *)
Lemma refreshGoogleToken_auth_error_aborts
    (fetch : nat -> FetchResult) (retries : nat) (status : Z) (body : Body) :
  fetch 1%nat = Response false status body ->
  CalendarAPI.isAuthError (CalendarAPI.failureMessage status body) = true ->
  CalendarAPI.refreshGoogleToken fetch (S retries) =
    (Throw (Error (CalendarAPI.failureMessage status body)), [DidFetch 1]).
Proof.
  intros Hf Hauth. unfold CalendarAPI.refreshGoogleToken.
  cbn [CalendarAPI.refreshLoop]. rewrite Hf, Hauth. reflexivity.
Qed.

(** However the refresh fails, [getValidToken] marks the record
    disconnected, notifies the user and returns null. *)
Lemma getValidToken_refresh_failure
    (fetch : nat -> FetchResult) (identity : nat -> IdentityResult) (nowMs : Z)
    (credentials : Credentials) (c : Connection) (e : exn) (eff : list TokenEffect) (expiry : Z) :
  connected c = true ->
  JS.truthyStr (accessToken c) = true ->
  expiresAt c = Some expiry -> expiry <> 0 -> expiry - 300000 < nowMs ->
  authMode c <> Some "simple" ->
  JS.truthyStr (refreshToken c) = true ->
  JS.truthyStr (clientId credentials) = true ->
  CalendarAPI.refreshGoogleToken fetch 3 = (Throw e, eff) ->
  CalendarAPI.getValidToken fetch identity nowMs (Some credentials) (Some c) =
    (Some CalendarAPI.disconnected, None, eff ++ [DidNotify "Google Calendar"]).
Proof.
  intros Hc Ha He Hne Hexp Hmode Hr Hid Hrefresh.
  unfold CalendarAPI.getValidToken.
  rewrite Hc, Ha, He, Hr. cbn [negb orb option_bind mbind].
  destruct (Z.eqb_spec expiry 0); [contradiction|].
  destruct (Z.ltb_spec (expiry - 300000) nowMs); [|lia].
  cbn [negb andb]. rewrite bool_decide_false by exact Hmode.
  change (Some credentials ≫= clientId) with (clientId credentials).
  rewrite Hid. cbn [negb]. rewrite Hrefresh. reflexivity.
Qed.

(** C6 at its failing input. The token endpoint answers every request
    with status 400 and the body
    [{error: 'invalid_grant', error_description: 'Bad Request'}]. The
    message of the error is the description, in which the test of the
    catch block finds none of its three words: the refresh is tried three
    times, with pauses of 1000 and 2000 ms, before [getValidToken] marks
    the record disconnected, notifies and returns null. With the
    description 'Token has been expired or revoked.' the same error
    stops the refresh after one request. *)
Lemma invalid_grant_is_retried :
  let answer (description : string) : nat -> FetchResult :=
    fun _ => Response false 400
               (ErrorJson (mkErrorBody (Some "invalid_grant") (Some description))) in
  let identity : nat -> IdentityResult := fun _ => NoToken in
  let credentials := Some (mkCredentials (Some "client-1") (Some "secret")) in
  let stored := Some (mkConnection true (Some "ya29.old") (Some "1//refresh")
                        (Some 1700000000000) (Some "advanced")) in
  CalendarAPI.refreshGoogleToken (answer "Bad Request") 3 =
    (Throw (Error "Bad Request"),
     [DidFetch 1; DidSleep 1000; DidFetch 2; DidSleep 2000; DidFetch 3]) /\
  CalendarAPI.getValidToken (answer "Bad Request") identity 1700000000000
      credentials stored =
    (Some CalendarAPI.disconnected, None,
     [DidFetch 1; DidSleep 1000; DidFetch 2; DidSleep 2000; DidFetch 3;
      DidNotify "Google Calendar"]) /\
  CalendarAPI.getValidToken (answer "Token has been expired or revoked.") identity
      1700000000000 credentials stored =
    (Some CalendarAPI.disconnected, None, [DidFetch 1; DidNotify "Google Calendar"]).
Proof. vm_compute. repeat split; reflexivity. Qed.

(* ------------------------------------------------------------------ *)
(** ** Dispatch *)

Section DispatchFacts.

Import NotificationManager.

Variable host : Host.

Lemma ret_catchesAll {A : Type} (a : A) : catchesAll (ret a).
Proof. intros st. exists st, a. reflexivity. Qed.

Lemma sleep_catchesAll (ms : Z) : catchesAll (sleep ms).
Proof. intros st. eexists _, tt. reflexivity. Qed.

Lemma bind_catchesAll {A B : Type} (m : M A) (k : A -> M B) :
  catchesAll m -> (forall a, catchesAll (k a)) -> catchesAll (bind m k).
Proof.
  intros Hm Hk st. destruct (Hm st) as (st1 & a & Hst).
  unfold bind. rewrite Hst. apply Hk.
Qed.

Lemma tryCatch_catchesAll {A : Type} (m : M A) (handler : exn -> M A) :
  (forall e, catchesAll (handler e)) -> catchesAll (tryCatch m handler).
Proof.
  intros Hh st. unfold tryCatch.
  destruct (m st) as [st1 [a|e]]; [exists st1, a; reflexivity|apply Hh].
Qed.

Lemma when_catchesAll (b : bool) (m : M unit) :
  catchesAll m -> catchesAll (when b m).
Proof. intros Hm. destruct b; [exact Hm|apply ret_catchesAll]. Qed.

Lemma showReminderWindow_catchesAll (event : Event) :
  catchesAll (showReminderWindow host event).
Proof. apply tryCatch_catchesAll. intros _. apply ret_catchesAll. Qed.

Lemma playSound_catchesAll : catchesAll (playSound host).
Proof. apply tryCatch_catchesAll. intros _. apply ret_catchesAll. Qed.

Lemma speakReminder_catchesAll (event : Event) (settings : Settings) :
  catchesAll (speakReminder host event settings).
Proof. apply tryCatch_catchesAll. intros _. apply ret_catchesAll. Qed.

Lemma flashBadge_catchesAll (reminderMinutes : Z) :
  catchesAll (flashBadge host reminderMinutes).
Proof. apply tryCatch_catchesAll. intros _. apply ret_catchesAll. Qed.

Lemma autoOpenLater_catchesAll (url : string) :
  catchesAll (autoOpenLater host url).
Proof.
  apply bind_catchesAll; [apply sleep_catchesAll|]. intros _.
  apply tryCatch_catchesAll. intros _. apply ret_catchesAll.
Qed.

(** The channels after the OS notification: the failure of one of them
    is caught inside it, so all of them are run and the dispatch
    returns normally. *)
Lemma triggerAttention_after_notification
    (event : Event) (st st1 : DispatchState) (settings : Settings) (nid : string) :
  getSettings host st = (st1, Ok settings) ->
  (exists st2, showOSNotification host event st1 = (st2, Ok nid)) ->
  exists st', triggerAttention host event st = (st', Ok tt).
Proof.
  intros Hs [st2 Hn]. unfold triggerAttention.
  unfold bind at 1. rewrite Hs. unfold bind at 1. rewrite Hn.
  assert (Hrest : catchesAll
    (run when (negb (bool_decide (cfg_showPopup settings = Some false)))
           (showReminderWindow host event);
     run when (negb (bool_decide (cfg_playSound settings = Some false))) (playSound host);
     run when (cfg_voiceReminder settings) (speakReminder host event settings);
     run flashBadge host (minutesOr2 settings);
     when (cfg_autoOpen settings && JS.truthyStr (meetingLink event))
       (autoOpenLater host (default "" (meetingLink event))))).
  { repeat (apply bind_catchesAll; [|intros _]);
      try apply when_catchesAll;
      auto using showReminderWindow_catchesAll, playSound_catchesAll,
        speakReminder_catchesAll, flashBadge_catchesAll, autoOpenLater_catchesAll. }
  destruct (Hrest st2) as (st' & [] & Hst'). exists st'. exact Hst'.
Qed.

End DispatchFacts.

(** C9 at its failing input. chrome.notifications.create rejects (the
    icon cannot be loaded), everything else in the host works, and the
    settings enable the popup and the sound. [showOSNotification] has no
    try block: the rejection leaves [triggerAttention] after three calls
    to the host, and no window, sound or badge call is made. When
    instead the window and the messages to the offscreen document fail,
    the dispatch goes on to the badge. *)
Lemma notification_failure_stops_dispatch :
  let event := mkEvent (Some "evt-42") (Some "Standup") (Some (Valid 1700000040000)) None
                 None (Some "https://meet.google.com/abc-defg-hij") None None
                 (Some "google-api") false 0 in
  let st0 := mkDispatchState [] true in
  let noIcon : Host :=
    mkHost (fun _ c => match c with
                       | NotificationsCreate _ _ _ _ =>
                           Some "Unable to download all specified images."
                       | _ => None
                       end)
      true (Some DEFAULT_SETTINGS) None
      (Some (mkWindow (Some 0) (Some 0) 1920 1080)) (fun _ => 0%nat) in
  let noWindowNoSound : Host :=
    mkHost (fun _ c => match c with
                       | WindowsCreate _ _ => Some "Invalid value for bounds."
                       | SendMessage _ => Some "Receiving end does not exist."
                       | _ => None
                       end)
      true (Some DEFAULT_SETTINGS) None
      (Some (mkWindow (Some 0) (Some 0) 1920 1080)) (fun _ => 0%nat) in
  NotificationManager.triggerAttention noIcon event st0 =
    (mkDispatchState
       [StorageSyncGet; StorageSyncGet;
        NotificationsCreate "pingmeet_evt-42" "⏰ Meeting starting in 2 minutes!"
          "Standup" true]
       true,
     Throw (Error "Unable to download all specified images.")) /\
  snd (NotificationManager.triggerAttention noWindowNoSound event st0) = Ok tt /\
  In (SetBadgeText "2m")
     (calls (fst (NotificationManager.triggerAttention noWindowNoSound event st0))).
Proof. vm_compute. repeat split; try reflexivity. tauto. Qed.

(* ------------------------------------------------------------------ *)
(** ** Malformed events in a batch *)

Lemma isUpcoming_bad_time (nowMs : Z) (e : Event) :
  startTime e = None \/ startTime e = Some Invalid ->
  Service.isUpcoming nowMs e = false.
Proof. unfold Service.isUpcoming. intros [-> | ->]; reflexivity. Qed.

(** An event without a start time, or with one that does not parse, is
    dropped by the filter on upcoming events: the rest of the batch is
    handled as if the event had not been there. *)
Lemma handleNewEvents_drops_bad_time (bad e : Event) (evs : list Event) (w : World) :
  startTime bad = None \/ startTime bad = Some Invalid ->
  Service.handleNewEvents (bad :: e :: evs) w = Service.handleNewEvents (e :: evs) w.
Proof.
  intros Hbad. unfold Service.handleNewEvents.
  cbn [List.filter].
  destruct (Service.keptBySource (apiStatus w) bad); [|reflexivity].
  cbn [List.filter]. rewrite (isUpcoming_bad_time _ _ Hbad). reflexivity.
Qed.

Lemma upcoming_without_bad_time (st : ApiStatus) (nowMs : Z)
    (l1 l2 : list Event) (bad : Event) :
  startTime bad = None \/ startTime bad = Some Invalid ->
  List.filter (Service.isUpcoming nowMs)
    (List.filter (Service.keptBySource st) (l1 ++ bad :: l2)) =
  List.filter (Service.isUpcoming nowMs)
    (List.filter (Service.keptBySource st) (l1 ++ l2)).
Proof.
  intros Hbad. rewrite !List.filter_app. f_equal. cbn [List.filter].
  destruct (Service.keptBySource st bad); [|reflexivity].
  cbn [List.filter]. rewrite (isUpcoming_bad_time _ _ Hbad). reflexivity.
Qed.

(** The same at any place of a batch that has other events. *)
Lemma handleNewEvents_drops_bad_time_anywhere
    (l1 l2 : list Event) (bad : Event) (w : World) :
  startTime bad = None \/ startTime bad = Some Invalid ->
  l1 ++ l2 <> [] ->
  Service.handleNewEvents (l1 ++ bad :: l2) w = Service.handleNewEvents (l1 ++ l2) w.
Proof.
  intros Hbad Hne. unfold Service.handleNewEvents.
  rewrite (upcoming_without_bad_time _ _ l1 l2 bad Hbad).
  destruct (l1 ++ l2) as [|x l] eqn:H12; [contradiction|].
  destruct (l1 ++ bad :: l2) as [|y l'] eqn:H1b; [|reflexivity].
  destruct l1; discriminate H1b.
Qed.

(** C10 at its failing input. A batch of a scraped event that has a
    start time and no title, followed by a well-formed event. Reading
    [toLowerCase] of the missing title throws in [deduplicateEvents]:
    [handleNewEvents] ends with the TypeError, and nothing is stored or
    scheduled. Alone, the well-formed event is stored and scheduled. *)
Lemma untitled_event_blocks_batch :
  let w := mkWorld ∅ ∅ [] DEFAULT_SETTINGS (mkApiStatus false false)
             1699999000000 (mkBadge "" "") in
  let untitled := mkEvent (Some "r1") None (Some (Valid 1700000400000)) None
                    (Some []) None None None (Some "react-state") false 0 in
  let good := mkEvent (Some "g1") (Some "Standup") (Some (Valid 1700000040000)) None
                None None None None (Some "google-dom") false 0 in
  Service.handleNewEvents [untitled; good] w =
    (w, Throw (TypeError "Cannot read properties of undefined (reading 'toLowerCase')")) /\
  snd (Service.handleNewEvents [good] w) =
    Ok [Scheduled "meeting_standup_1700000040000" 1699999920000] /\
  events (fst (Service.handleNewEvents [good] w)) = [good] /\
  Alarms.get "meeting_standup_1700000040000" (fst (Service.handleNewEvents [good] w)) =
    Some 1699999920000.
Proof. vm_compute. repeat split; reflexivity. Qed.

(* ================================================================== *)
(** * Further properties of the code *)

(* ------------------------------------------------------------------ *)
(** ** Conflict detector: symmetry, soundness, completeness *)

Lemma Date_max_comm (a b : instant) : Date.max a b = Date.max b a.
Proof. destruct a, b; cbn; try reflexivity. f_equal. apply Z.max_comm. Qed.

Lemma Date_min_comm (a b : instant) : Date.min a b = Date.min b a.
Proof. destruct a, b; cbn; try reflexivity. f_equal. apply Z.min_comm. Qed.

Lemma Date_sameTime_comm (a b : instant) : Date.sameTime a b = Date.sameTime b a.
Proof. destruct a, b; cbn; try reflexivity. apply Z.eqb_sym. Qed.

Lemma eventsOverlap_comm (a b : Event) :
  ConflictDetector.eventsOverlap a b = ConflictDetector.eventsOverlap b a.
Proof. unfold ConflictDetector.eventsOverlap. cbn zeta. apply andb_comm. Qed.

(** X1. Overlap and severity do not depend on the order of the two
    events, whatever their fields hold (missing or unparseable times
    included). *)
Theorem overlap_and_severity_symmetric (a b : Event) :
  ConflictDetector.eventsOverlap a b = ConflictDetector.eventsOverlap b a /\
  ConflictDetector.calculateSeverity a b = ConflictDetector.calculateSeverity b a.
Proof.
  split; [apply eventsOverlap_comm|].
  unfold ConflictDetector.calculateSeverity. cbn zeta.
  rewrite (Date_sameTime_comm (Date.ofField (startTime b))).
  rewrite (Date_max_comm (Date.ofField (startTime b))).
  rewrite (Date_min_comm (ConflictDetector.endOf b _)).
  reflexivity.
Qed.

Lemma insertSorted_perm (x : Event) (l : list Event) :
  Permutation (ConflictDetector.insertSorted x l) (x :: l).
Proof.
  induction l as [|y l IH]; cbn [ConflictDetector.insertSorted]; [reflexivity|].
  destruct (ConflictDetector.compareStart x y >? 0); [|reflexivity].
  rewrite IH. apply perm_swap.
Qed.

Lemma sortByStart_perm (l : list Event) :
  Permutation (ConflictDetector.sortByStart l) l.
Proof.
  induction l as [|x l IH]; cbn; [reflexivity|].
  rewrite insertSorted_perm. apply perm_skip. exact IH.
Qed.

Lemma overlapFree_perm (l l' : list Event) :
  Permutation l l' -> overlapFree l -> overlapFree l'.
Proof.
  unfold overlapFree. induction 1 as [|x l l' Hp IH|x y l|l l' l'' Hp1 IH1 Hp2 IH2];
    intros H.
  - exact H.
  - inversion H as [|? ? Hx Hl]; subst. constructor; [|apply IH; exact Hl].
    rewrite List.Forall_forall in *. intros z Hz. apply Hx.
    apply (Permutation_in z (Permutation_sym Hp)). exact Hz.
  - inversion H as [|? ? Hy Hl]; subst. inversion Hl as [|? ? Hx Hl']; subst.
    inversion Hy as [|? ? Hyx Hyl]; subst.
    constructor; [|constructor; assumption].
    constructor; [|exact Hx]. rewrite eventsOverlap_comm. exact Hyx.
  - auto.
Qed.

Lemma pairConflicts_nil_iff (l : list Event) :
  ConflictDetector.pairConflicts l = [] <-> overlapFree l.
Proof.
  unfold overlapFree. induction l as [|x l IH]; cbn [ConflictDetector.pairConflicts].
  - split; [constructor|reflexivity].
  - split.
    + intros [Hx Hl]%app_eq_nil. constructor; [|apply IH; exact Hl].
      apply map_eq_nil in Hx. rewrite List.Forall_forall. intros z Hz.
      destruct (ConflictDetector.eventsOverlap x z) eqn:Hov; [|reflexivity].
      assert (Hin : z ∈ filter (fun e => ConflictDetector.eventsOverlap x e = true) l).
      { apply list_elem_of_filter. split; [exact Hov|]. apply list_elem_of_In. exact Hz. }
      rewrite Hx in Hin. inversion Hin.
    + intros H. inversion H as [|? ? Hx Hl]; subst.
      rewrite (proj2 IH Hl), app_nil_r.
      destruct (filter _ l) as [|z f] eqn:Hf; [reflexivity|]. exfalso.
      assert (Hz : z ∈ filter (fun e => ConflictDetector.eventsOverlap x e = true) l)
        by (rewrite Hf; left).
      apply list_elem_of_filter in Hz as [Hov Hz]. apply list_elem_of_In in Hz.
      rewrite List.Forall_forall in Hx. rewrite (Hx z Hz) in Hov. discriminate Hov.
Qed.

Lemma detectConflicts_nil_iff_aux (evs : list Event) :
  ConflictDetector.detectConflicts evs = [] <-> overlapFree evs.
Proof.
  unfold ConflictDetector.detectConflicts. rewrite pairConflicts_nil_iff. split.
  - apply overlapFree_perm. apply sortByStart_perm.
  - apply overlapFree_perm. symmetry. apply sortByStart_perm.
Qed.

(** X2. [detectConflicts] reports nothing exactly when no two events of
    the input overlap, whatever the order of the input. *)
Theorem detectConflicts_nil_iff (evs : list Event) :
  ConflictDetector.detectConflicts evs = [] <-> overlapFree evs.
Proof. apply detectConflicts_nil_iff_aux. Qed.

Lemma pairConflicts_elem (l : list Event) (c : ConflictDetector.Conflict) :
  In c (ConflictDetector.pairConflicts l) ->
  exists e1 e2,
    c = ConflictDetector.conflictOf e1 e2 /\ In e1 l /\ In e2 l /\
    ConflictDetector.eventsOverlap e1 e2 = true /\
    (StronglySorted (fun a b => ConflictDetector.compareStart a b <= 0) l ->
     ConflictDetector.compareStart e1 e2 <= 0).
Proof.
  induction l as [|x l IH]; cbn [ConflictDetector.pairConflicts]; [intros []|].
  rewrite in_app_iff, in_map_iff. intros [(e2 & <- & He2)|Hc].
  - apply list_elem_of_In, list_elem_of_filter in He2 as [Hov He2].
    apply list_elem_of_In in He2. exists x, e2.
    split; [reflexivity|]. split; [left; reflexivity|]. split; [right; exact He2|].
    split; [exact Hov|]. intros Hs. apply StronglySorted_inv in Hs as [_ Hx].
    rewrite List.Forall_forall in Hx. exact (Hx e2 He2).
  - destruct (IH Hc) as (e1 & e2 & -> & H1 & H2 & Hov & Hord).
    exists e1, e2. split; [reflexivity|]. split; [right; exact H1|].
    split; [right; exact H2|]. split; [exact Hov|].
    intros Hs. apply Hord. apply StronglySorted_inv in Hs as [Hs _]. exact Hs.
Qed.

Lemma insertSorted_sorted (x : Event) (l : list Event) :
  allStartsValid (x :: l) ->
  StronglySorted (fun a b => ConflictDetector.compareStart a b <= 0) l ->
  StronglySorted (fun a b => ConflictDetector.compareStart a b <= 0)
    (ConflictDetector.insertSorted x l).
Proof.
  unfold allStartsValid. intros Hv. apply Forall_cons in Hv as [[sx Hx] Hv].
  induction l as [|y l IH]; intros Hs; cbn [ConflictDetector.insertSorted].
  - constructor; [constructor|constructor].
  - apply Forall_cons in Hv as [[sy Hy] Hv].
    apply StronglySorted_inv in Hs as [Hs Hyl].
    assert (Hxy : ConflictDetector.compareStart x y = sx - sy)
      by (unfold ConflictDetector.compareStart; rewrite Hx, Hy; reflexivity).
    destruct (Z.gtb_spec (ConflictDetector.compareStart x y) 0) as [Hgt|Hle].
    + constructor; [exact (IH Hv Hs)|].
      rewrite List.Forall_forall. intros z Hz.
      apply (Permutation_in z (insertSorted_perm x l)) in Hz as [<-|Hz].
      * unfold ConflictDetector.compareStart. rewrite Hx, Hy. cbn. lia.
      * rewrite List.Forall_forall in Hyl. exact (Hyl z Hz).
    + constructor; [constructor; assumption|].
      constructor; [exact Hle|].
      rewrite List.Forall_forall in *. intros z Hz.
      specialize (Hyl z Hz). destruct (Hv z Hz) as [sz Hsz].
      unfold ConflictDetector.compareStart in *. rewrite Hx, Hy, ?Hsz in *.
      cbn in *. lia.
Qed.

Lemma sortByStart_sorted (l : list Event) :
  allStartsValid l ->
  StronglySorted (fun a b => ConflictDetector.compareStart a b <= 0)
    (ConflictDetector.sortByStart l).
Proof.
  induction l as [|x l IH]; intros Hv; cbn; [constructor|].
  apply insertSorted_sorted.
  - unfold allStartsValid in *. apply Forall_cons in Hv as [Hx Hv].
    apply Forall_cons. split; [exact Hx|].
    rewrite Forall_forall in *. intros z Hz. apply Hv.
    apply list_elem_of_In. apply list_elem_of_In in Hz.
    exact (Permutation_in z (sortByStart_perm l) Hz).
  - apply IH. unfold allStartsValid in *. apply Forall_cons in Hv as [_ Hv]. exact Hv.
Qed.

(** X3. Every conflict that [detectConflicts] reports is a pair of
    events of the input that overlap, with the severity of
    [calculateSeverity]; when all start times parse, the first event of
    the pair starts no later than the second. *)
Theorem detectConflicts_sound (evs : list Event) (c : ConflictDetector.Conflict) :
  In c (ConflictDetector.detectConflicts evs) ->
  In (ConflictDetector.c_events c).1 evs /\
  In (ConflictDetector.c_events c).2 evs /\
  ConflictDetector.eventsOverlap
    (ConflictDetector.c_events c).1 (ConflictDetector.c_events c).2 = true /\
  ConflictDetector.c_severity c =
    ConflictDetector.calculateSeverity
      (ConflictDetector.c_events c).1 (ConflictDetector.c_events c).2 /\
  (allStartsValid evs ->
   ConflictDetector.compareStart
     (ConflictDetector.c_events c).1 (ConflictDetector.c_events c).2 <= 0).
Proof.
  unfold ConflictDetector.detectConflicts. intros Hc.
  destruct (pairConflicts_elem _ c Hc) as (e1 & e2 & -> & H1 & H2 & Hov & Hord).
  cbn [ConflictDetector.conflictOf ConflictDetector.c_events
       ConflictDetector.c_severity fst snd].
  pose proof (sortByStart_perm evs) as Hp.
  repeat split.
  - exact (Permutation_in e1 Hp H1).
  - exact (Permutation_in e2 Hp H2).
  - exact Hov.
  - intros Hv. apply Hord. apply sortByStart_sorted. exact Hv.
Qed.

(** Witness of X3: 9:30-10:30 listed before 9:00-10:00; the conflict
    reported puts the earlier event first. *)
Lemma detectConflicts_sound_witness :
  let a := mkEvent (Some "a") (Some "A") (Some (Valid 32400000)) (Some (Valid 36000000))
             None None None None None false 0 in
  let b := mkEvent (Some "b") (Some "B") (Some (Valid 34200000)) (Some (Valid 37800000))
             None None None None None false 0 in
  ConflictDetector.eventsOverlap a b = true.
Proof.
  intros a b.
  exact (proj1 (proj2 (proj2
    (detectConflicts_sound [b; a] (ConflictDetector.conflictOf a b)
       (or_introl eq_refl))))).
Defined.

(** [hasConflict] is true exactly when [getConflictingEvents] finds an
    event. *)
Lemma hasConflict_iff_conflicting (event : Event) (allEvents : list Event) :
  ConflictDetector.hasConflict event allEvents = true <->
  ConflictDetector.getConflictingEvents event allEvents <> [].
Proof.
  unfold ConflictDetector.hasConflict, ConflictDetector.getConflictingEvents.
  rewrite existsb_exists. split.
  - intros (o & Ho & Htest) Hnil.
    assert (Hin : o ∈ filter (fun otherEvent =>
              (if decide (id otherEvent = id event) then false
               else ConflictDetector.eventsOverlap event otherEvent) = true) allEvents).
    { apply list_elem_of_filter. split; [exact Htest|]. apply list_elem_of_In. exact Ho. }
    rewrite Hnil in Hin. inversion Hin.
  - intros Hne. destruct (filter _ allEvents) as [|o f] eqn:Hf; [contradiction|].
    assert (Hin : o ∈ filter (fun otherEvent =>
              (if decide (id otherEvent = id event) then false
               else ConflictDetector.eventsOverlap event otherEvent) = true) allEvents)
      by (rewrite Hf; left).
    apply list_elem_of_filter in Hin as [Htest Hin].
    exists o. split; [apply list_elem_of_In; exact Hin|exact Htest].
Qed.

Lemma getConflictingEvents_same_id (event : Event) (allEvents : list Event) :
  Forall (fun o => id o = id event) allEvents ->
  ConflictDetector.getConflictingEvents event allEvents = [].
Proof.
  unfold ConflictDetector.getConflictingEvents.
  induction 1 as [|o l Ho Hl IH]; [reflexivity|].
  rewrite filter_cons. rewrite decide_False; [exact IH|].
  rewrite decide_True by exact Ho. discriminate.
Qed.

(** X4. Two overlapping events with the same [id] (in particular two
    events that both lack one: [undefined === undefined]) are reported
    by [detectConflicts], yet neither is among the conflicting events
    of the other, so the loop of [handleNewEvents] flags neither. *)
Theorem same_id_conflict_is_not_flagged (a b : Event) :
  id a = id b ->
  ConflictDetector.eventsOverlap a b = true ->
  ConflictDetector.detectConflicts [a; b] <> [] /\
  ConflictDetector.getConflictingEvents a [a; b] = [] /\
  ConflictDetector.getConflictingEvents b [a; b] = [] /\
  Service.annotate [a; b] a = a /\ Service.annotate [a; b] b = b.
Proof.
  intros Hid Hov.
  assert (Ha : ConflictDetector.getConflictingEvents a [a; b] = []).
  { apply getConflictingEvents_same_id. repeat constructor. symmetry. exact Hid. }
  assert (Hb : ConflictDetector.getConflictingEvents b [a; b] = []).
  { apply getConflictingEvents_same_id. repeat constructor. exact Hid. }
  split; [|unfold Service.annotate; rewrite Ha, Hb; auto].
  rewrite detectConflicts_nil_iff_aux. intros H.
  inversion H as [|? ? Hx _]; subst. inversion Hx as [|? ? Hab _]; subst.
  congruence.
Qed.

(** Witness of X4: two scraped events without [id], 9:00-10:00 and
    9:30-10:30. *)
Lemma same_id_conflict_is_not_flagged_witness :
  let a := mkEvent None (Some "A") (Some (Valid 32400000)) (Some (Valid 36000000))
             None None None None (Some "react-state") false 0 in
  let b := mkEvent None (Some "B") (Some (Valid 34200000)) (Some (Valid 37800000))
             None None None None (Some "react-state") false 0 in
  ConflictDetector.detectConflicts [a; b] <> [] /\
  Service.annotate [a; b] a = a.
Proof.
  intros a b.
  destruct (same_id_conflict_is_not_flagged a b eq_refl eq_refl)
    as (Hd & _ & _ & Ha & _).
  split; [exact Hd|exact Ha].
Defined.

(** X5. [getUpcomingConflicts] reports only pairs of overlapping events
    that both start in the window from the clock to [hoursAhead] hours
    later, bounds included. *)
Theorem getUpcomingConflicts_window
    (nowMs hoursAhead : Z) (evs : list Event) (c : ConflictDetector.Conflict) :
  In c (ConflictDetector.getUpcomingConflicts nowMs evs hoursAhead) ->
  exists s1 s2,
    startTime (ConflictDetector.c_events c).1 = Some (Valid s1) /\
    startTime (ConflictDetector.c_events c).2 = Some (Valid s2) /\
    nowMs <= s1 <= nowMs + hoursAhead * 3600000 /\
    nowMs <= s2 <= nowMs + hoursAhead * 3600000 /\
    ConflictDetector.eventsOverlap
      (ConflictDetector.c_events c).1 (ConflictDetector.c_events c).2 = true.
Proof.
  unfold ConflictDetector.getUpcomingConflicts. cbn zeta. intros Hc.
  unfold ConflictDetector.detectConflicts in Hc.
  destruct (pairConflicts_elem _ c Hc) as (e1 & e2 & -> & H1 & H2 & Hov & _).
  cbn [ConflictDetector.conflictOf ConflictDetector.c_events fst snd].
  assert (Hwin : forall e,
    In e (ConflictDetector.sortByStart
            (List.filter (fun event =>
               Date.ge (Date.ofField (startTime event)) (Date.ofNumber nowMs) &&
               Date.le (Date.ofField (startTime event))
                 (Date.plus (Date.ofNumber nowMs) (hoursAhead * 60 * 60 * 1000))) evs)) ->
    exists s, startTime e = Some (Valid s) /\
              nowMs <= s <= nowMs + hoursAhead * 3600000).
  { intros e He. apply (Permutation_in e (sortByStart_perm _)) in He.
    apply List.filter_In in He as [_ He]. apply andb_true_iff in He as [Hge Hle].
    destruct (startTime e) as [[s|]|]; cbn in Hge; try discriminate Hge.
    unfold Date.plus, Date.ofNumber in *.
    destruct (Z.abs nowMs <=? Date.maxTime); [|discriminate Hge].
    destruct (Z.abs (nowMs + hoursAhead * 60 * 60 * 1000) <=? Date.maxTime);
      cbn in Hle; [|discriminate Hle].
    exists s. split; [reflexivity|]. apply Z.leb_le in Hge, Hle. lia. }
  destruct (Hwin e1 H1) as (s1 & Hs1 & Hb1). destruct (Hwin e2 H2) as (s2 & Hs2 & Hb2).
  exists s1, s2. auto.
Qed.

(** Witness of X5: at 8:00 with a window of two hours, the meetings of
    9:00 and 9:30 are in the window. *)
Lemma getUpcomingConflicts_window_witness :
  let a := mkEvent (Some "a") (Some "A") (Some (Valid 32400000)) (Some (Valid 36000000))
             None None None None None false 0 in
  let b := mkEvent (Some "b") (Some "B") (Some (Valid 34200000)) (Some (Valid 37800000))
             None None None None None false 0 in
  exists s1 s2,
    startTime a = Some (Valid s1) /\ startTime b = Some (Valid s2) /\
    28800000 <= s1 <= 28800000 + 2 * 3600000 /\
    28800000 <= s2 <= 28800000 + 2 * 3600000 /\
    ConflictDetector.eventsOverlap a b = true.
Proof.
  intros a b.
  exact (getUpcomingConflicts_window 28800000 2 [b; a]
           (ConflictDetector.conflictOf a b) (or_introl eq_refl)).
Defined.

(* ------------------------------------------------------------------ *)
(** ** Reconciliation of a whole batch *)

(** One turn of the loop covers the event it is given, and every event
    that was covered stays covered: the array holds an event of the
    same key and of a score that is not lower. *)
Lemma dedupStep_covers (st st' : gmap string Event * list Event) (event : Event) :
  indexed st -> Service.dedupStep st event = Ok st' ->
  (exists e', e' ∈ st'.2 /\ Service.dedupKey e' = Service.dedupKey event /\
              Service.score event <= Service.score e') /\
  (forall e, e ∈ st.2 ->
     exists e', e' ∈ st'.2 /\ Service.dedupKey e' = Service.dedupKey e /\
                Service.score e <= Service.score e').
Proof.
  destruct st as [seen result]. intros Hinv. pose proof Hinv as [Hidx Hnd].
  cbn [fst snd] in Hidx, Hnd |- *. unfold Service.dedupStep.
  destruct (Service.dedupKey event) as [k|] eqn:Hkey; [|discriminate].
  cbn [bindRes]. destruct (seen !! k) as [existing|] eqn:Hseen.
  - destruct (indexOf_indexed seen result k existing Hinv Hseen)
      as (i & Hio & Hi & Huniq).
    destruct (proj1 (Hidx k existing) Hseen) as [Hex Hke].
    rewrite Hio. unfold Service.hasMoreDetails.
    destruct (Z.gtb_spec (Service.score event) (Service.score existing)) as [Hgt|Hle];
      intros [= <-]; cbn [fst snd].
    + assert (Hlt : (i < length result)%nat) by (eapply lookup_lt_Some; exact Hi).
      assert (Hev : event ∈ <[i:=event]> result) by (apply list_elem_of_insert; exact Hlt).
      split; [exists event; split; [exact Hev|split; [congruence|lia]]|].
      intros e [j Hj]%list_elem_of_lookup.
      destruct (decide (j = i)) as [->|Hne].
      * assert (e = existing) by congruence. subst e.
        exists event. split; [exact Hev|]. split; [congruence|lia].
      * exists e. split; [|split; [reflexivity|lia]].
        eapply list_elem_of_lookup_2. rewrite list_lookup_insert_ne; [exact Hj|].
        congruence.
    + split; [exists existing; split; [exact Hex|split; [congruence|lia]]|].
      intros e He. exists e. split; [exact He|split; [reflexivity|lia]].
  - intros [= <-]. cbn [fst snd]. split.
    + exists event. rewrite elem_of_app, list_elem_of_singleton.
      split; [auto|split; [congruence|lia]].
    + intros e He. exists e. rewrite elem_of_app.
      split; [auto|split; [reflexivity|lia]].
Qed.

Lemma dedupLoop_covers (evs : list Event) :
  forall st st', indexed st -> Service.dedupLoop evs st = Ok st' ->
    forall e, e ∈ st.2 \/ e ∈ evs ->
      exists e', e' ∈ st'.2 /\ Service.dedupKey e' = Service.dedupKey e /\
                 Service.score e <= Service.score e'.
Proof.
  induction evs as [|event evs IH]; intros st st' Hinv; cbn [Service.dedupLoop].
  - intros [= <-] e [He|He]; [|inversion He].
    exists e. split; [exact He|split; [reflexivity|lia]].
  - destruct (Service.dedupStep st event) as [st1|] eqn:Hstep; [|discriminate].
    cbn [bindRes]. intros Hloop e He.
    destruct (dedupStep_indexed st st1 event Hinv Hstep) as [Hinv1 _].
    destruct (dedupStep_covers st st1 event Hinv Hstep) as [Hnew Hold].
    assert (Hmid : e ∈ evs \/ exists e1, e1 ∈ st1.2 /\
              Service.dedupKey e1 = Service.dedupKey e /\
              Service.score e <= Service.score e1).
    { destruct He as [He|He]; [right; exact (Hold e He)|].
      apply elem_of_cons in He as [->|He]; [right; exact Hnew|left; exact He]. }
    destruct Hmid as [He'|(e1 & He1 & Hk1 & Hs1)].
    + exact (IH st1 st' Hinv1 Hloop e (or_intror He')).
    + destruct (IH st1 st' Hinv1 Hloop e1 (or_introl He1)) as (e' & He' & Hk' & Hs').
      exists e'. split; [exact He'|]. split; [congruence|lia].
Qed.

Lemma indexed_empty : indexed (∅, []).
Proof.
  split; cbn [fst snd].
  - intros k e. rewrite lookup_empty. split; [discriminate|].
    intros [Hin _]. inversion Hin.
  - constructor.
Qed.

(** X6. The reconciled set of a batch of any size: it holds one event
    per identity key, only events of the batch, and for every event of
    the batch an event of the same key whose score is at least as
    high. *)
Theorem deduplicateEvents_canonical (evs result : list Event) :
  Service.deduplicateEvents evs = Ok result ->
  NoDup (Service.dedupKey <$> result) /\
  (forall e, e ∈ result -> e ∈ evs) /\
  (forall e, e ∈ evs ->
     exists e', e' ∈ result /\ Service.dedupKey e' = Service.dedupKey e /\
                Service.score e <= Service.score e').
Proof.
  unfold Service.deduplicateEvents.
  destruct (Service.dedupLoop evs (∅, [])) as [st|] eqn:Hloop; [|discriminate].
  cbn [bindRes]. intros [= <-].
  destruct (dedupLoop_indexed evs _ _ indexed_empty Hloop) as [[_ Hnd] Hsub].
  split; [exact Hnd|]. split.
  - intros e He. destruct (Hsub e He) as [H|H]; [inversion H|exact H].
  - intros e He. exact (dedupLoop_covers evs _ _ indexed_empty Hloop e (or_intror He)).
Qed.

(** Witness of X6: three reports of one meeting and one other meeting. *)
Lemma deduplicateEvents_canonical_witness :
  let a := mkEvent (Some "d1") (Some "Team Sync") (Some (Valid 1700000040000)) None
             None None None None (Some "google-dom") false 0 in
  let b := mkEvent (Some "g1") (Some "team sync") (Some (Valid 1700000040500)) None
             None (Some "https://meet.google.com/abc-defg-hij") None None
             (Some "google-api") false 0 in
  let c := mkEvent (Some "o1") (Some "TEAM SYNC ") (Some (Valid 1700000041000)) None
             None None (Some "weekly") None (Some "outlook-api") false 0 in
  let d := mkEvent (Some "g2") (Some "Retro") (Some (Valid 1700003640000)) None
             None None None None (Some "google-api") false 0 in
  NoDup (Service.dedupKey <$> [c; d]).
Proof.
  intros a b c d.
  exact (proj1 (deduplicateEvents_canonical [a; b; c; d] [c; d] eq_refl)).
Defined.

Lemma dedupStep_titled (st : gmap string Event * list Event) (event : Event) :
  (exists st', Service.dedupStep st event = Ok st') <-> is_Some (title event).
Proof.
  destruct st as [seen result]. unfold Service.dedupStep, Service.dedupKey.
  destruct (title event) as [t|]; cbn [bindRes].
  - split; [eauto|]. intros _.
    destruct (seen !! _); [|eauto].
    destruct (Service.hasMoreDetails _ _); [|eauto].
    destruct (Service.indexOf _ _); eauto.
  - split; [intros [st' H]; discriminate H|intros [t H]; discriminate H].
Qed.

Lemma dedupLoop_titled (evs : list Event) :
  forall st, (exists st', Service.dedupLoop evs st = Ok st') <->
             Forall (fun e => is_Some (title e)) evs.
Proof.
  induction evs as [|event evs IH]; intros st; cbn [Service.dedupLoop].
  - split; [constructor|eauto].
  - rewrite Forall_cons. split.
    + intros [st' H].
      destruct (Service.dedupStep st event) as [st1|] eqn:Hstep; [|discriminate H].
      split; [apply (dedupStep_titled st); eauto|]. apply (IH st1). eauto.
    + intros [Ht Hrest]. destruct (proj2 (dedupStep_titled st event) Ht) as [st1 Hstep].
      rewrite Hstep. cbn [bindRes]. apply IH. exact Hrest.
Qed.

Lemma deduplicateEvents_titled (evs : list Event) :
  (exists result, Service.deduplicateEvents evs = Ok result) <->
  Forall (fun e => is_Some (title e)) evs.
Proof.
  rewrite <- (dedupLoop_titled evs (∅, [])). unfold Service.deduplicateEvents. split.
  - intros [r H]. destruct (Service.dedupLoop evs (∅, [])) as [st|]; [eauto|discriminate H].
  - intros [st ->]. cbn. eauto.
Qed.

(** X7. [deduplicateEvents] returns normally exactly when every event
    of the batch has a title; otherwise it throws the TypeError of
    reading [toLowerCase] of the missing title. No other field can make
    it throw. *)
Theorem deduplicateEvents_throws_iff_untitled (evs : list Event) :
  ((exists result, Service.deduplicateEvents evs = Ok result) <->
   Forall (fun e => is_Some (title e)) evs) /\
  (forall e, Service.deduplicateEvents evs = Throw e ->
     e = TypeError "Cannot read properties of undefined (reading 'toLowerCase')").
Proof.
  split; [apply deduplicateEvents_titled|].
  unfold Service.deduplicateEvents. generalize (∅ : gmap string Event, @nil Event).
  induction evs as [|event evs IH]; intros st e; cbn [Service.dedupLoop bindRes].
  - discriminate.
  - destruct (Service.dedupStep st event) as [st1|e1] eqn:Hstep; cbn [bindRes].
    + apply IH.
    + intros [= <-]. destruct st as [seen result].
      unfold Service.dedupStep, Service.dedupKey in Hstep.
      destruct (title event); cbn [bindRes] in Hstep.
      * destruct (seen !! _); [|discriminate Hstep].
        destruct (Service.hasMoreDetails _ _); [|discriminate Hstep].
        destruct (Service.indexOf _ _); discriminate Hstep.
      * injection Hstep as <-. reflexivity.
Qed.

(** A list whose keys are distinct and not yet in the map goes through
    the loop unchanged. *)
Lemma dedupLoop_distinct (l : list Event) :
  forall (seen : gmap string Event) (result : list Event),
    NoDup (Service.dedupKey <$> l) ->
    (forall e, e ∈ l -> exists k, Service.dedupKey e = Ok k /\ seen !! k = None) ->
    exists seen', Service.dedupLoop l (seen, result) = Ok (seen', result ++ l).
Proof.
  induction l as [|e l IH]; intros seen result Hnd Hfresh; cbn [Service.dedupLoop].
  - exists seen. rewrite app_nil_r. reflexivity.
  - rewrite fmap_cons in Hnd. apply NoDup_cons in Hnd as [Hnotin Hnd].
    destruct (Hfresh e) as (k & Hk & Hnone); [left|].
    unfold Service.dedupStep. rewrite Hk. cbn [bindRes]. rewrite Hnone. cbn [bindRes].
    destruct (IH (<[k:=e]> seen) (result ++ [e]) Hnd) as [seen' Hloop].
    + intros e' He'. destruct (Hfresh e') as (k' & Hk' & Hnone'); [right; exact He'|].
      exists k'. split; [exact Hk'|]. rewrite lookup_insert_ne; [exact Hnone'|].
      intros <-. apply Hnotin. rewrite Hk, <- Hk'. apply list_elem_of_fmap_2. exact He'.
    + exists seen'. rewrite Hloop, <- app_assoc. reflexivity.
Qed.

(** X8. Reconciling a reconciled set changes nothing. *)
Theorem deduplicateEvents_idempotent (evs result : list Event) :
  Service.deduplicateEvents evs = Ok result ->
  Service.deduplicateEvents result = Ok result.
Proof.
  intros Hd.
  assert (Hnd : NoDup (Service.dedupKey <$> result) /\ forall e, e ∈ result -> e ∈ evs).
  { unfold Service.deduplicateEvents in Hd.
    destruct (Service.dedupLoop evs (∅, [])) as [st|] eqn:Hloop; [|discriminate].
    cbn [bindRes] in Hd. injection Hd as <-.
    destruct (dedupLoop_indexed evs _ _ indexed_empty Hloop) as [[_ Hnd] Hsub].
    split; [exact Hnd|]. intros e He.
    destruct (Hsub e He) as [H|H]; [inversion H|exact H]. }
  destruct Hnd as [Hnd Hsub].
  assert (Ht : Forall (fun e => is_Some (title e)) evs)
    by (apply deduplicateEvents_titled; eauto).
  destruct (dedupLoop_distinct result ∅ [] Hnd) as [seen' Hloop].
  - intros e He. rewrite Forall_forall in Ht.
    destruct (Ht e (Hsub e He)) as [t Htitle].
    unfold Service.dedupKey. rewrite Htitle. eexists. split; [reflexivity|].
    apply lookup_empty.
  - unfold Service.deduplicateEvents. rewrite Hloop. reflexivity.
Qed.

(** Witness of X8. *)
Lemma deduplicateEvents_idempotent_witness :
  let a := mkEvent (Some "d1") (Some "Team Sync") (Some (Valid 1700000040000)) None
             None None None None (Some "google-dom") false 0 in
  let b := mkEvent (Some "g1") (Some "team sync") (Some (Valid 1700000040500)) None
             None (Some "https://meet.google.com/abc-defg-hij") None None
             (Some "google-api") false 0 in
  Service.deduplicateEvents [b] = Ok [b].
Proof.
  intros a b. exact (deduplicateEvents_idempotent [a; b] [b] eq_refl).
Defined.

(* ------------------------------------------------------------------ *)
(** ** Life of a reminder: scheduled, fired, consumed *)

Lemma prefix_append (p s : string) : String.prefix p (String.append p s) = true.
Proof.
  induction p as [|c p IH]; [destruct s; reflexivity|].
  rewrite append_String_l. cbn [String.prefix].
  destruct (ascii_dec c c) as [_|Hne]; [exact IH|contradiction].
Qed.

Lemma meeting_name_not_system (x : string) :
  bool_decide (String.append ALARM_NAMES.MEETING_PREFIX x ∈ Service.systemAlarms) = false.
Proof.
  apply bool_decide_eq_false. unfold Service.systemAlarms, ALARM_NAMES.MEETING_PREFIX.
  rewrite append_String_l.
  rewrite !elem_of_cons, elem_of_nil. intros H.
  repeat (destruct H as [H|H]; [discriminate H|]). exact H.
Qed.

Lemma alarmName_is_meeting (e : Event) :
  exists x, Service.alarmName e = String.append ALARM_NAMES.MEETING_PREFIX x.
Proof. unfold Service.alarmName. cbn zeta. eauto. Qed.

Lemma handleAlarm_meeting (dispatch : Event -> res unit) (n x : string) (w : World) :
  n = String.append ALARM_NAMES.MEETING_PREFIX x ->
  Service.handleAlarm dispatch n w =
    match StorageManager.getEvent n (Alarms.clear n w) with
    | Some event =>
        match dispatch event with
        | Ok _ => (StorageManager.removeEvent n (Alarms.clear n w), Ok (Some event))
        | Throw e => (Alarms.clear n w, Throw e)
        end
    | None => (Alarms.clear n w, Ok None)
    end.
Proof.
  intros ->. unfold Service.handleAlarm. rewrite meeting_name_not_system.
  unfold JS.startsWith. rewrite prefix_append. reflexivity.
Qed.

(** X9. [scheduleReminder] creates a trigger exactly when the start
    time parses, the user has not declined, no alarm of the derived
    name is live and the start minus the lead time is a time value
    after the clock. The trigger then fires at exactly the start minus
    [reminderMinutes] minutes, and the snapshot of the event is stored
    under the name of the alarm. *)
Theorem scheduleReminder_scheduled_iff (e : Event) (w : World) (n : string) (t : Z) :
  (snd (Service.scheduleReminder e w) = Scheduled n t <->
   exists s,
     startTime e = Some (Valid s) /\ Service.userDeclined e = false /\
     n = Service.alarmName e /\ Alarms.get n w = None /\
     t = s - reminderMinutes (settings w) * 60000 /\
     Z.abs t <= Date.maxTime /\ now w < t) /\
  (snd (Service.scheduleReminder e w) = Scheduled n t ->
   Alarms.get n (fst (Service.scheduleReminder e w)) = Some t /\
   StorageManager.getEvent n (fst (Service.scheduleReminder e w)) = Some e).
Proof.
  split.
  - unfold Service.scheduleReminder, Alarms.get.
    destruct (startTime e) as [[s|]|] eqn:Hs.
    + change (Date.ofField (Some (Valid s))) with (Valid s).
      unfold Date.plus, Date.ofNumber, TIME.ONE_MINUTE_MS.
      destruct (Service.userDeclined e) eqn:Hd.
      { split; [discriminate|]. intros (s' & _ & H & _). discriminate H. }
      destruct (alarms w !! Service.alarmName e) eqn:Hget.
      { split; [discriminate|]. intros (s' & _ & _ & -> & H & _). congruence. }
      replace (s + - (reminderMinutes (settings w) * (60 * 1000)))
        with (s - reminderMinutes (settings w) * 60000) by lia.
      destruct (Z.leb_spec (Z.abs (s - reminderMinutes (settings w) * 60000)) Date.maxTime)
        as [Hr|Hr].
      * destruct (Z.ltb_spec (now w) (s - reminderMinutes (settings w) * 60000)) as [Hn|Hn];
          cbn [snd].
        -- split.
           ++ intros [= <- <-]. exists s. repeat split; auto.
           ++ intros (s' & [= <-] & _ & -> & _ & -> & _). reflexivity.
        -- split; [discriminate|].
           intros (s' & [= <-] & _ & _ & _ & -> & _ & Hlt). lia.
      * split; [discriminate|].
        intros (s' & [= <-] & _ & _ & _ & -> & Hle & _). lia.
    + change (Date.ofField (Some Invalid)) with Invalid. unfold Date.plus.
      destruct (Service.userDeclined e); [|destruct (alarms w !! _)];
        (split; [discriminate|]); intros (s' & H & _); discriminate H.
    + split; [discriminate|]. intros (s' & H & _). discriminate H.
  - intros Hs. pose proof (scheduleReminder_effect e w) as He. rewrite Hs in He.
    destruct He as (_ & _ & ->). unfold Alarms.get, StorageManager.getEvent. cbn.
    rewrite !lookup_insert_eq. auto.
Qed.

(** Witness of X9: a meeting at [T] with a lead time of two minutes,
    scheduled ten minutes before [T], fires at [T] minus two minutes. *)
Lemma scheduleReminder_scheduled_iff_witness :
  let e := mkEvent (Some "g1") (Some "Standup") (Some (Valid 1700000040000)) None
             None None None None (Some "google-api") false 0 in
  let w := mkWorld ∅ ∅ [] DEFAULT_SETTINGS (mkApiStatus true true)
             1699999440000 (mkBadge "" "") in
  Alarms.get "meeting_standup_1700000040000" (fst (Service.scheduleReminder e w)) =
    Some (1700000040000 - 2 * 60000).
Proof.
  intros e w.
  exact (proj1 (proj2 (scheduleReminder_scheduled_iff e w
           "meeting_standup_1700000040000" (1700000040000 - 2 * 60000)) eq_refl)).
Defined.

(** X10. A scheduled reminder is consumed by its firing: when the alarm
    fires and the dispatch returns normally, the event that was
    scheduled is the one dispatched, the alarm and the snapshot are
    gone, and a second firing of the same name finds nothing and does
    nothing. *)
Theorem scheduled_reminder_fires_once
    (dispatch : Event -> res unit) (e : Event) (w : World) (n : string) (t : Z) :
  snd (Service.scheduleReminder e w) = Scheduled n t ->
  dispatch e = Ok tt ->
  let w1 := fst (Service.scheduleReminder e w) in
  let w2 := fst (Service.handleAlarm dispatch n w1) in
  snd (Service.handleAlarm dispatch n w1) = Ok (Some e) /\
  Alarms.get n w2 = None /\
  StorageManager.getEvent n w2 = None /\
  Service.handleAlarm dispatch n w2 = (w2, Ok None).
Proof.
  intros Hs Hd w1 w2.
  pose proof (scheduleReminder_effect e w) as He. rewrite Hs in He.
  destruct He as (Hn & _ & Hw1). destruct (alarmName_is_meeting e) as [x Hx].
  rewrite <- Hn in Hx.
  assert (Hfire : Service.handleAlarm dispatch n w1 =
            (StorageManager.removeEvent n (Alarms.clear n w1), Ok (Some e))).
  { rewrite (handleAlarm_meeting dispatch n x w1 Hx).
    unfold StorageManager.getEvent. subst w1. rewrite Hw1. cbn.
    rewrite lookup_insert_eq, Hd. reflexivity. }
  subst w2. rewrite Hfire. cbn [fst snd].
  assert (Ha : Alarms.get n (StorageManager.removeEvent n (Alarms.clear n w1)) = None)
    by (unfold Alarms.get; cbn; apply lookup_delete_eq).
  assert (Hg : StorageManager.getEvent n (StorageManager.removeEvent n (Alarms.clear n w1)) = None)
    by (unfold StorageManager.getEvent; cbn; apply lookup_delete_eq).
  repeat split; try assumption.
  rewrite (handleAlarm_meeting dispatch n x _ Hx).
  assert (Hclear : Alarms.clear n (StorageManager.removeEvent n (Alarms.clear n w1)) =
                   StorageManager.removeEvent n (Alarms.clear n w1)).
  { unfold Alarms.clear, StorageManager.removeEvent. cbn. f_equal.
    apply delete_id. apply lookup_delete_eq. }
  rewrite Hclear, Hg. reflexivity.
Qed.

(** Witness of X10. *)
Lemma scheduled_reminder_fires_once_witness :
  let e := mkEvent (Some "g1") (Some "Standup") (Some (Valid 1700000040000)) None
             None None None None (Some "google-api") false 0 in
  let w := mkWorld ∅ ∅ [] DEFAULT_SETTINGS (mkApiStatus true true)
             1699999440000 (mkBadge "" "") in
  snd (Service.handleAlarm (fun _ => Ok tt) "meeting_standup_1700000040000"
         (fst (Service.scheduleReminder e w))) = Ok (Some e).
Proof.
  intros e w.
  exact (proj1 (scheduled_reminder_fires_once (fun _ => Ok tt) e w
           "meeting_standup_1700000040000" 1699999920000 eq_refl eq_refl)).
Defined.

(** X11. When the dispatch of a fired reminder throws, [handleAlarm]
    ends with that exception before it removes the snapshot: the alarm
    is gone, so the reminder is not tried again, and the snapshot stays
    in the store. *)
Theorem failed_dispatch_leaves_snapshot
    (dispatch : Event -> res unit) (e : Event) (w : World) (n : string) (t : Z) (x : exn) :
  snd (Service.scheduleReminder e w) = Scheduled n t ->
  dispatch e = Throw x ->
  let w1 := fst (Service.scheduleReminder e w) in
  let w2 := fst (Service.handleAlarm dispatch n w1) in
  snd (Service.handleAlarm dispatch n w1) = Throw x /\
  Alarms.get n w2 = None /\
  StorageManager.getEvent n w2 = Some e.
Proof.
  intros Hs Hd w1 w2.
  pose proof (scheduleReminder_effect e w) as He. rewrite Hs in He.
  destruct He as (Hn & _ & Hw1). destruct (alarmName_is_meeting e) as [y Hy].
  rewrite <- Hn in Hy.
  assert (Hfire : Service.handleAlarm dispatch n w1 = (Alarms.clear n w1, Throw x)).
  { rewrite (handleAlarm_meeting dispatch n y w1 Hy).
    unfold StorageManager.getEvent. subst w1. rewrite Hw1. cbn.
    rewrite lookup_insert_eq, Hd. reflexivity. }
  subst w2. rewrite Hfire. cbn [fst snd]. split; [reflexivity|].
  unfold Alarms.get, StorageManager.getEvent. subst w1. rewrite Hw1. cbn.
  rewrite lookup_delete_eq, lookup_insert_eq. auto.
Qed.

(** Witness of X11. *)
Lemma failed_dispatch_leaves_snapshot_witness :
  let e := mkEvent (Some "g1") (Some "Standup") (Some (Valid 1700000040000)) None
             None None None None (Some "google-api") false 0 in
  let w := mkWorld ∅ ∅ [] DEFAULT_SETTINGS (mkApiStatus true true)
             1699999440000 (mkBadge "" "") in
  let dispatch : Event -> res unit :=
    fun _ => Throw (Error "Unable to download all specified images.") in
  StorageManager.getEvent "meeting_standup_1700000040000"
    (fst (Service.handleAlarm dispatch "meeting_standup_1700000040000"
            (fst (Service.scheduleReminder e w)))) = Some e.
Proof.
  intros e w dispatch.
  exact (proj2 (proj2 (failed_dispatch_leaves_snapshot dispatch e w
           "meeting_standup_1700000040000" 1699999920000 _ eq_refl eq_refl))).
Defined.

(* ------------------------------------------------------------------ *)
(** ** Snooze *)

Lemma digitsFuel_chars (fuel : nat) :
  forall (n : Z) (acc : string) (c : ascii),
    In c (list_ascii_of_string (JS.digitsFuel fuel n acc)) ->
    In c (list_ascii_of_string acc) \/ exists k, 0 <= k < 10 /\ c = JS.digitChar k.
Proof.
  induction fuel as [|fuel IH]; intros n acc c Hc; cbn [JS.digitsFuel] in Hc; [auto|].
  assert (Hstep : In c (list_ascii_of_string (String (JS.digitChar (n mod 10)) acc)) ->
            In c (list_ascii_of_string acc) \/ exists k, 0 <= k < 10 /\ c = JS.digitChar k).
  { cbn [list_ascii_of_string In]. intros [<-|H]; [right|left; exact H].
    exists (n mod 10). split; [apply Z.mod_pos_bound; lia|reflexivity]. }
  destruct (n / 10 =? 0); [exact (Hstep Hc)|].
  destruct (IH _ _ _ Hc) as [H|H]; [exact (Hstep H)|right; exact H].
Qed.

Lemma intToString_chars (n : Z) (c : ascii) :
  In c (list_ascii_of_string (JS.intToString n)) ->
  c = "-"%char \/ exists k, 0 <= k < 10 /\ c = JS.digitChar k.
Proof.
  unfold JS.intToString. destruct (n <? 0).
  - cbn [list_ascii_of_string In]. intros [<-|H]; [left; reflexivity|].
    destruct (digitsFuel_chars _ _ _ _ H) as [[]|Hk]. right. exact Hk.
  - intros H. destruct (digitsFuel_chars _ _ _ _ H) as [[]|Hk]. right. exact Hk.
Qed.

Lemma roundedTime_not_snooze (i : instant) : Service.roundedTime i <> "snooze".
Proof.
  destruct i as [t|]; cbn [Service.roundedTime]; [|discriminate].
  intros Heq.
  assert (Hs : In "s"%char (list_ascii_of_string (JS.intToString (t / 60000 * 60000))))
    by (rewrite Heq; left; reflexivity).
  destruct (intToString_chars _ _ Hs) as [H|(k & Hk & H)]; [discriminate H|].
  unfold JS.digitChar in H. assert (Hn : (Z.to_nat k < 10)%nat) by lia.
  destruct (Z.to_nat k) as [|[|[|[|[|[|[|[|[|[|m]]]]]]]]]]; try discriminate H; lia.
Qed.

(** The name under which [handleSnooze] creates its alarm is never a
    name that [scheduleReminder] derives. *)
Lemma alarmName_not_snooze (e' : Event) (x : string) :
  Service.alarmName e' <>
  String.append ALARM_NAMES.MEETING_PREFIX (String.append x "_snooze").
Proof.
  unfold Service.alarmName. cbn zeta. intros Heq.
  apply append_prefix_inj in Heq.
  change "_snooze" with (String.append "_" "snooze") in Heq.
  apply key_split_unique in Heq as [_ Heq].
  - exact (roundedTime_not_snooze _ Heq).
  - apply roundedTime_no_underscore.
  - cbn. intros H. repeat (destruct H as [H|H]; [discriminate H|]). exact H.
Qed.

(** X12. Snoozing creates a trigger of its own at the clock plus the
    delay, under a name that [scheduleReminder] never derives, and
    leaves every other alarm alone; when that trigger fires, the
    snoozed event is the one dispatched. *)
Theorem handleSnooze_round_trip
    (dispatch : Event -> res unit) (e : Event) (minutes : Z) (w : World) :
  dispatch e = Ok tt ->
  let name := String.append ALARM_NAMES.MEETING_PREFIX
                (String.append (ConflictDetector.show (id e)) "_snooze") in
  let w1 := Service.handleSnooze e minutes w in
  Alarms.get name w1 = Some (now w + minutes * 60000) /\
  (forall n', n' <> name -> Alarms.get n' w1 = Alarms.get n' w) /\
  (forall e', Service.alarmName e' <> name) /\
  snd (Service.handleAlarm dispatch name w1) = Ok (Some e).
Proof.
  intros Hd name w1. unfold Alarms.get. subst w1. unfold Service.handleSnooze.
  fold name. cbn. split; [apply lookup_insert_eq|].
  split; [intros n' Hne; apply lookup_insert_ne; congruence|].
  split; [intros e'; apply alarmName_not_snooze|].
  rewrite (handleAlarm_meeting dispatch name _ _ eq_refl).
  unfold StorageManager.getEvent. cbn. rewrite lookup_insert_eq, Hd. reflexivity.
Qed.

(** Witness of X12. *)
Lemma handleSnooze_round_trip_witness :
  let e := mkEvent (Some "g1") (Some "Standup") (Some (Valid 1700000040000)) None
             None None None None (Some "google-api") false 0 in
  let w := mkWorld ∅ ∅ [] DEFAULT_SETTINGS (mkApiStatus true true)
             1699999920000 (mkBadge "" "") in
  Alarms.get "meeting_g1_snooze" (Service.handleSnooze e 5 w) =
    Some (1699999920000 + 5 * 60000).
Proof.
  intros e w.
  exact (proj1 (handleSnooze_round_trip (fun _ => Ok tt) e 5 w eq_refl)).
Defined.

(* ------------------------------------------------------------------ *)
(** ** Walking the stored events again *)

Lemma scheduleReminder_env (e : Event) (w : World) :
  settings (fst (Service.scheduleReminder e w)) = settings w /\
  now (fst (Service.scheduleReminder e w)) = now w /\
  events (fst (Service.scheduleReminder e w)) = events w /\
  apiStatus (fst (Service.scheduleReminder e w)) = apiStatus w /\
  badge (fst (Service.scheduleReminder e w)) = badge w.
Proof.
  pose proof (scheduleReminder_effect e w) as He.
  destruct (snd (Service.scheduleReminder e w)); try (rewrite He; auto).
  destruct He as (_ & _ & ->). cbn. auto.
Qed.

(** After a call of [scheduleReminder] for [e], a further call for [e]
    does nothing in any world that still has the alarms, has the same
    settings and a clock that has not gone back. *)
Lemma scheduleReminder_settled (e : Event) (w w2 : World) :
  (forall n t, alarms (fst (Service.scheduleReminder e w)) !! n = Some t ->
               alarms w2 !! n = Some t) ->
  settings w2 = settings w -> now w <= now w2 ->
  fst (Service.scheduleReminder e w2) = w2 /\
  forall n t, snd (Service.scheduleReminder e w2) <> Scheduled n t.
Proof.
  intros Hsub Hset Hnow.
  pose proof (scheduleReminder_effect e w) as He. revert He Hsub.
  unfold Service.scheduleReminder, Alarms.get. rewrite Hset.
  destruct (startTime e) as [st|]; [|split; [reflexivity|discriminate]].
  destruct (Service.userDeclined e); [split; [reflexivity|discriminate]|].
  destruct (alarms w !! Service.alarmName e) as [t0|] eqn:Hget; cbn [fst snd].
  - intros _ Hsub. rewrite (Hsub _ _ Hget). split; [reflexivity|discriminate].
  - destruct (alarms w2 !! Service.alarmName e) eqn:Hget2;
      [split; [reflexivity|discriminate]|].
    destruct (Date.plus _ _) as [t|]; [|split; [reflexivity|discriminate]].
    destruct (Z.ltb_spec (now w) t) as [Hlt|Hge]; cbn [fst snd].
    + intros _ Hsub. specialize (Hsub (Service.alarmName e) t). cbn in Hsub.
      rewrite lookup_insert_eq in Hsub. rewrite (Hsub eq_refl) in Hget2. discriminate.
    + intros _ _. destruct (Z.ltb_spec (now w2) t); [lia|].
      split; [reflexivity|discriminate].
Qed.

Lemma scheduleAll_settled (es : list Event) :
  forall (w w2 : World),
    (forall n t, alarms (fst (Service.scheduleAll es w)) !! n = Some t ->
                 alarms w2 !! n = Some t) ->
    settings w2 = settings w -> now w <= now w2 ->
    fst (Service.scheduleAll es w2) = w2 /\
    forall n t, ~ In (Scheduled n t) (snd (Service.scheduleAll es w2)).
Proof.
  induction es as [|e es IH]; intros w w2 Hsub Hset Hnow; [cbn; auto|].
  rewrite scheduleAll_cons in Hsub. cbn [fst] in Hsub.
  destruct (scheduleReminder_env e w) as (Hs1 & Hn1 & _).
  destruct (scheduleReminder_settled e w w2) as [Hfix Hno]; try assumption.
  { intros n t Hn. apply Hsub.
    exact (proj1 (scheduleAll_keeps es _ n t Hn)). }
  rewrite scheduleAll_cons. cbn [fst snd]. rewrite Hfix.
  destruct (IH (fst (Service.scheduleReminder e w)) w2) as [Hfix' Hno'];
    try assumption; try congruence; try lia.
  split; [exact Hfix'|].
  intros n t [Hhead|Htail]; [exact (Hno n t Hhead)|exact (Hno' n t Htail)].
Qed.

(** X13. Walking the stored events again changes nothing. After
    [loadStoredEvents], a second walk over the same stored events (in
    the same process or after a restart, at the same or a later clock,
    with the same settings and the alarms still there) schedules
    nothing and leaves the world as it is. *)
Theorem loadStoredEvents_idempotent (w w2 : World) :
  alarms w2 = alarms (fst (Service.loadStoredEvents w)) ->
  events w2 = events w -> settings w2 = settings w -> now w <= now w2 ->
  fst (Service.loadStoredEvents w2) = w2 /\
  forall n t, ~ In (Scheduled n t) (snd (Service.loadStoredEvents w2)).
Proof.
  unfold Service.loadStoredEvents, StorageManager.getEvents.
  intros Ha He Hs Hn. rewrite He.
  apply (scheduleAll_settled (events w) w w2); try assumption.
  intros n t H. rewrite Ha. exact H.
Qed.

(** Witness of X13: restart five minutes after the first walk. *)
Lemma loadStoredEvents_idempotent_witness :
  let e1 := mkEvent (Some "g1") (Some "Team Sync") (Some (Valid 1700000040000)) None
              None None None None (Some "google-api") false 0 in
  let e2 := mkEvent (Some "g2") (Some "Retro") (Some (Valid 1699999100000)) None
              None None None None (Some "google-api") false 0 in
  let w := mkWorld ∅ ∅ [e1; e2] DEFAULT_SETTINGS (mkApiStatus true true)
             1699999000000 (mkBadge "" "") in
  let w1 := fst (Service.loadStoredEvents w) in
  let w2 := mkWorld (alarms w1) (local w1) [e1; e2] DEFAULT_SETTINGS
              (mkApiStatus true true) 1699999300000 (mkBadge "" "") in
  fst (Service.loadStoredEvents w2) = w2.
Proof.
  intros e1 e2 w w1 w2.
  apply (loadStoredEvents_idempotent w w2); try reflexivity.
  vm_compute. discriminate.
Defined.

(* ------------------------------------------------------------------ *)
(** ** Ingestion of a batch *)

Lemma handleNewEvents_Throw (evs : list Event) (w : World) (x : exn) :
  Service.deduplicateEvents (upcomingOf w evs) = Throw x ->
  evs <> [] ->
  Service.handleNewEvents evs w = (w, Throw x).
Proof.
  unfold upcomingOf, Service.handleNewEvents. intros Hd Hne.
  destruct evs as [|e evs]; [contradiction|]. rewrite Hd. reflexivity.
Qed.

Lemma handleNewEvents_Ok (evs unique : list Event) (w : World) :
  Service.deduplicateEvents (upcomingOf w evs) = Ok unique ->
  evs <> [] ->
  exists stored,
    (stored = unique \/ stored = map (Service.annotate unique) unique) /\
    Service.handleNewEvents evs w =
      (Service.updateBadge (length stored)
         (0 <? length (ConflictDetector.detectConflicts unique))%nat
         (fst (Service.scheduleAll stored (StorageManager.saveEvents stored w))),
       Ok (snd (Service.scheduleAll stored (StorageManager.saveEvents stored w)))).
Proof.
  unfold upcomingOf, Service.handleNewEvents. intros Hd Hne.
  destruct evs as [|e evs]; [contradiction|]. rewrite Hd.
  destruct (0 <? length (ConflictDetector.detectConflicts unique))%nat.
  - exists (map (Service.annotate unique) unique). split; [right; reflexivity|].
    destruct (Service.scheduleAll _ _). reflexivity.
  - exists unique. split; [left; reflexivity|].
    destruct (Service.scheduleAll _ _). reflexivity.
Qed.

Lemma annotate_fields (all : list Event) (e : Event) :
  title (Service.annotate all e) = title e /\
  startTime (Service.annotate all e) = startTime e /\
  source (Service.annotate all e) = source e /\
  Service.dedupKey (Service.annotate all e) = Service.dedupKey e.
Proof.
  unfold Service.annotate. destruct (0 <? length _)%nat; auto.
Qed.

(** What [handleNewEvents] stores is the reconciled set, each event
    with its conflict fields perhaps set. *)
Lemma stored_of_unique (unique stored : list Event) :
  stored = unique \/ stored = map (Service.annotate unique) unique ->
  Service.dedupKey <$> stored = Service.dedupKey <$> unique /\
  length stored = length unique /\
  forall e', In e' stored ->
    exists e, In e unique /\ title e' = title e /\
              startTime e' = startTime e /\ source e' = source e.
Proof.
  intros [->| ->].
  - split; [reflexivity|]. split; [reflexivity|]. intros e' He'. exists e'. auto.
  - split; [|split].
    + change (Service.dedupKey <$> (Service.annotate unique <$> unique) =
              Service.dedupKey <$> unique).
      rewrite <- list_fmap_compose. apply list_fmap_ext. intros i e _. cbn.
      apply annotate_fields.
    + apply length_map.
    + intros e' (e & <- & He)%in_map_iff. exists e.
      destruct (annotate_fields unique e) as (Ht & Hs & Hsrc & _). auto.
Qed.

Lemma updateBadge_env (count : nat) (c : bool) (w : World) :
  alarms (Service.updateBadge count c w) = alarms w /\
  local (Service.updateBadge count c w) = local w /\
  events (Service.updateBadge count c w) = events w.
Proof. unfold Service.updateBadge. cbn. auto. Qed.

Lemma scheduleAll_events (es : list Event) :
  forall w, events (fst (Service.scheduleAll es w)) = events w.
Proof.
  induction es as [|e es IH]; intros w; [reflexivity|].
  rewrite scheduleAll_cons. cbn [fst]. rewrite IH.
  apply scheduleReminder_env.
Qed.

(** X14. Ingesting a batch never cancels nor moves a trigger: an alarm
    that is live before [handleNewEvents] is live after it with the same
    firing time, whatever the batch holds and whether or not the handler
    throws. *)
Theorem handleNewEvents_keeps_alarms
    (evs : list Event) (w : World) (n : string) (t : Z) :
  Alarms.get n w = Some t ->
  Alarms.get n (fst (Service.handleNewEvents evs w)) = Some t.
Proof.
  unfold Alarms.get. intros Hn.
  destruct evs as [|e0 evs0] eqn:Hevs; [exact Hn|]. rewrite <- Hevs.
  assert (Hne : evs <> []) by (rewrite Hevs; discriminate).
  clear Hevs.
  destruct (Service.deduplicateEvents (upcomingOf w evs)) as [unique|x] eqn:Hd.
  - destruct (handleNewEvents_Ok evs unique w Hd Hne) as (stored & _ & ->).
    cbn [fst]. rewrite (proj1 (updateBadge_env _ _ _)).
    apply scheduleAll_keeps. exact Hn.
  - rewrite (handleNewEvents_Throw evs w x Hd Hne). exact Hn.
Qed.

(** Witness of X14. *)
Lemma handleNewEvents_keeps_alarms_witness :
  let e := mkEvent (Some "g1") (Some "Team Sync") (Some (Valid 1700000040000)) None
             None None None None (Some "google-api") false 0 in
  let w := mkWorld {["meeting_team-sync_1700000040000" := 1699999740000]} ∅ []
             DEFAULT_SETTINGS (mkApiStatus true true) 1699999000000 (mkBadge "" "") in
  Alarms.get "meeting_team-sync_1700000040000" (fst (Service.handleNewEvents [e] w)) =
    Some 1699999740000.
Proof.
  intros e w. apply (handleNewEvents_keeps_alarms [e] w). reflexivity.
Defined.

(** X15. A batch that is not empty but holds no upcoming event (all
    past, beyond 24 hours, without a start time, or scraped while the
    API is connected) replaces the stored events by the empty set and
    blanks the badge; alarms and snapshots are not touched. An empty
    batch, in contrast, changes nothing. *)
Theorem handleNewEvents_nothing_upcoming (evs : list Event) (w : World) :
  evs <> [] -> upcomingOf w evs = [] ->
  let w' := fst (Service.handleNewEvents evs w) in
  snd (Service.handleNewEvents evs w) = Ok [] /\
  events w' = [] /\ badgeText (badge w') = "" /\
  alarms w' = alarms w /\ local w' = local w /\
  Service.handleNewEvents [] w = (w, Ok []).
Proof.
  intros Hne Hup w'. subst w'.
  assert (Hd : Service.deduplicateEvents (upcomingOf w evs) = Ok []) by (rewrite Hup; reflexivity).
  destruct (handleNewEvents_Ok evs [] w Hd Hne) as (stored & Hstored & ->).
  assert (stored = []) as -> by (destruct Hstored as [->| ->]; reflexivity).
  cbn. auto 10.
Qed.

(** Witness of X15: the only event of the batch started an hour ago. *)
Lemma handleNewEvents_nothing_upcoming_witness :
  let old := mkEvent (Some "g0") (Some "Done") (Some (Valid 1699995400000)) None
               None None None None (Some "google-api") false 0 in
  let kept := mkEvent (Some "g1") (Some "Team Sync") (Some (Valid 1700000040000)) None
                None None None None (Some "google-api") false 0 in
  let w := mkWorld ∅ ∅ [kept] DEFAULT_SETTINGS (mkApiStatus true true)
             1699999000000 (mkBadge "1" "#4285F4") in
  events (fst (Service.handleNewEvents [old] w)) = [].
Proof.
  intros old kept w.
  apply (handleNewEvents_nothing_upcoming [old] w); [discriminate|reflexivity].
Defined.

(** X16. One event without a title blocks the batch it comes in,
    wherever it stands in the batch and whatever else the batch holds:
    when it passes the two filters of [handleNewEvents] (its source is
    not skipped and it starts within 24 hours), the handler ends with an
    exception before anything is written, so the stored events, the
    alarms, the snapshots and the badge are as before and no event of
    the batch is scheduled. *)
Theorem handleNewEvents_untitled_blocks (evs : list Event) (w : World) (e : Event) :
  In e evs -> title e = None ->
  Service.keptBySource (apiStatus w) e = true ->
  Service.isUpcoming (now w) e = true ->
  exists x, Service.handleNewEvents evs w = (w, Throw x).
Proof.
  intros Hin Htitle Hkept Hup.
  assert (Hne : evs <> []) by (intros ->; inversion Hin).
  assert (He : In e (upcomingOf w evs)).
  { unfold upcomingOf. rewrite !List.filter_In. auto. }
  destruct (Service.deduplicateEvents (upcomingOf w evs)) as [unique|x] eqn:Hd.
  - exfalso.
    assert (Ht : Forall (fun e => is_Some (title e)) (upcomingOf w evs))
      by (apply deduplicateEvents_titled; eauto).
    rewrite List.Forall_forall in Ht. destruct (Ht e He) as [t Hsome]. congruence.
  - exists x. apply handleNewEvents_Throw; assumption.
Qed.

(** Witness of X16: the untitled event comes last, after two
    well-formed events. *)
Lemma handleNewEvents_untitled_blocks_witness :
  let w := mkWorld ∅ ∅ [] DEFAULT_SETTINGS (mkApiStatus true false)
             1699999000000 (mkBadge "" "") in
  let standup := mkEvent (Some "g1") (Some "Standup") (Some (Valid 1700000040000)) None
                   None None None None (Some "google-api") false 0 in
  let review := mkEvent (Some "g2") (Some "Review") (Some (Valid 1700003640000)) None
                  None None None None (Some "google-api") false 0 in
  let untitled := mkEvent (Some "r1") None (Some (Valid 1700000400000)) None
                    (Some []) None None None (Some "react-state") false 0 in
  exists x, Service.handleNewEvents [standup; review; untitled] w = (w, Throw x).
Proof.
  intros w standup review untitled.
  apply (handleNewEvents_untitled_blocks [standup; review; untitled] w untitled);
    [simpl; tauto|reflexivity|reflexivity|reflexivity].
Defined.

Lemma upcomingOf_elem (w : World) (evs : list Event) (e : Event) :
  In e (upcomingOf w evs) <->
  In e evs /\ Service.keptBySource (apiStatus w) e = true /\
  Service.isUpcoming (now w) e = true.
Proof. unfold upcomingOf. rewrite !List.filter_In. tauto. Qed.

(** The stored set after a batch that was handled normally. *)
Lemma handleNewEvents_stored (evs : list Event) (w : World) (outcomes : list ScheduleOutcome) :
  snd (Service.handleNewEvents evs w) = Ok outcomes -> evs <> [] ->
  NoDup (Service.dedupKey <$> events (fst (Service.handleNewEvents evs w))) /\
  length outcomes = length (events (fst (Service.handleNewEvents evs w))) /\
  forall e', In e' (events (fst (Service.handleNewEvents evs w))) ->
    exists e, In e (upcomingOf w evs) /\ title e' = title e /\
              startTime e' = startTime e /\ source e' = source e.
Proof.
  intros Hok Hne.
  destruct (Service.deduplicateEvents (upcomingOf w evs)) as [unique|x] eqn:Hd.
  - destruct (handleNewEvents_Ok evs unique w Hd Hne) as (stored & Hstored & Heq).
    rewrite Heq in Hok |- *. cbn [fst snd] in Hok |- *. injection Hok as <-.
    rewrite (proj2 (proj2 (updateBadge_env _ _ _))), scheduleAll_events. cbn [events StorageManager.saveEvents].
    destruct (stored_of_unique unique stored Hstored) as (Hkeys & Hlen & Hfields).
    destruct (deduplicateEvents_one_per_key _ _ Hd) as [Hnd Hsub].
    split; [rewrite Hkeys; exact Hnd|]. split.
    + clear. generalize (StorageManager.saveEvents stored w).
      induction stored as [|e l IH]; intros w0; [reflexivity|].
      rewrite scheduleAll_cons. cbn [snd length]. f_equal. apply IH.
    + intros e' He'. destruct (Hfields e' He') as (e & He & Hf).
      exists e. split; [|exact Hf]. apply list_elem_of_In, Hsub, list_elem_of_In. exact He.
  - rewrite (handleNewEvents_Throw evs w x Hd Hne) in Hok. discriminate Hok.
Qed.

(** X17. After a batch that was handled normally, the stored set holds
    one event per identity key, one scheduling outcome was produced per
    stored event, and every stored event starts after the clock and at
    most 24 hours later. *)
Theorem handleNewEvents_stored_set
    (evs : list Event) (w : World) (outcomes : list ScheduleOutcome) :
  snd (Service.handleNewEvents evs w) = Ok outcomes -> evs <> [] ->
  let stored := events (fst (Service.handleNewEvents evs w)) in
  NoDup (Service.dedupKey <$> stored) /\
  length outcomes = length stored /\
  forall e', In e' stored ->
    exists s, startTime e' = Some (Valid s) /\ now w < s <= now w + 24 * 3600000.
Proof.
  intros Hok Hne stored.
  destruct (handleNewEvents_stored evs w outcomes Hok Hne) as (Hnd & Hlen & Hsrc).
  split; [exact Hnd|]. split; [exact Hlen|].
  intros e' He'. destruct (Hsrc e' He') as (e & He & _ & Hs & _).
  apply upcomingOf_elem in He as (_ & _ & Hup). unfold Service.isUpcoming in Hup.
  rewrite Hs. destruct (startTime e) as [[s|]|]; try discriminate Hup.
  exists s. split; [reflexivity|]. apply andb_true_iff in Hup as [H1 H2].
  apply Z.ltb_lt in H1. apply Z.leb_le in H2. unfold TIME.ONE_HOUR_MS in H2. lia.
Qed.

(** Witness of X17. *)
Lemma handleNewEvents_stored_set_witness :
  let e := mkEvent (Some "g1") (Some "Team Sync") (Some (Valid 1700000040000)) None
             None None None None (Some "google-api") false 0 in
  let w := mkWorld ∅ ∅ [] DEFAULT_SETTINGS (mkApiStatus true true)
             1699999000000 (mkBadge "" "") in
  NoDup (Service.dedupKey <$> events (fst (Service.handleNewEvents [e; e] w))).
Proof.
  intros e w.
  refine (proj1 (handleNewEvents_stored_set [e; e] w _ eq_refl _)). discriminate.
Defined.

(** X18. While the API of a calendar is connected, no event scraped
    from the page of that calendar is stored by [handleNewEvents]. *)
Theorem handleNewEvents_prefers_api
    (evs : list Event) (w : World) (outcomes : list ScheduleOutcome) (e' : Event) :
  snd (Service.handleNewEvents evs w) = Ok outcomes -> evs <> [] ->
  In e' (events (fst (Service.handleNewEvents evs w))) ->
  (google (apiStatus w) = true -> source e' <> Some "google-dom") /\
  (outlook (apiStatus w) = true -> source e' <> Some "outlook-dom").
Proof.
  intros Hok Hne He'.
  destruct (handleNewEvents_stored evs w outcomes Hok Hne) as (_ & _ & Hsrc).
  destruct (Hsrc e' He') as (e & He & _ & _ & Hs).
  apply upcomingOf_elem in He as (_ & Hkept & _). rewrite Hs.
  unfold Service.keptBySource in Hkept.
  split; intros Hc Hdom; rewrite Hc, Hdom in Hkept; cbn in Hkept.
  - discriminate Hkept.
  - destruct (google (apiStatus w)); discriminate Hkept.
Qed.

(** Witness of X18: the scraped report is dropped, the API report is
    stored. *)
Lemma handleNewEvents_prefers_api_witness :
  let dom := mkEvent (Some "d1") (Some "Team Sync") (Some (Valid 1700000040000)) None
               None None None None (Some "google-dom") false 0 in
  let api := mkEvent (Some "g1") (Some "Retro") (Some (Valid 1700003640000)) None
               None None None None (Some "google-api") false 0 in
  let w := mkWorld ∅ ∅ [] DEFAULT_SETTINGS (mkApiStatus true false)
             1699999000000 (mkBadge "" "") in
  source api <> Some "google-dom".
Proof.
  intros dom api w.
  refine (proj1 (handleNewEvents_prefers_api [dom; api] w _ api eq_refl _ _) eq_refl).
  - discriminate.
  - left. reflexivity.
Defined.

Lemma parsed_events_titled (gItems : list GoogleItem) (oItems : list GraphItem) :
  Forall (fun e => is_Some (title e))
    (CalendarAPI.parseGoogleEvents gItems ++ CalendarAPI.parseOutlookEvents oItems).
Proof.
  rewrite List.Forall_forall. intros e [He|He]%in_app_iff.
  - unfold CalendarAPI.parseGoogleEvents in He.
    apply in_map_iff in He as (item & <- & _). cbn. eauto.
  - unfold CalendarAPI.parseOutlookEvents in He.
    apply in_map_iff in He as (item & <- & _). cbn. eauto.
Qed.

(** X19. A batch built by [parseGoogleEvents] and [parseOutlookEvents]
    never makes [handleNewEvents] throw, whatever the items of the two
    APIs hold: both parsers give every event a title. *)
Theorem api_batch_is_handled
    (gItems : list GoogleItem) (oItems : list GraphItem) (w : World) :
  exists outcomes,
    snd (Service.handleNewEvents
           (CalendarAPI.parseGoogleEvents gItems ++ CalendarAPI.parseOutlookEvents oItems) w)
    = Ok outcomes.
Proof.
  pose proof (parsed_events_titled gItems oItems) as Ht.
  set (evs := CalendarAPI.parseGoogleEvents gItems ++ CalendarAPI.parseOutlookEvents oItems) in *.
  destruct evs as [|e0 evs0] eqn:Hevs; [cbn; eauto|]. rewrite <- Hevs in *.
  assert (Hne : evs <> []) by (rewrite Hevs; discriminate). clear Hevs.
  assert (Hup : Forall (fun e => is_Some (title e)) (upcomingOf w evs)).
  { rewrite List.Forall_forall in *. intros e He. apply Ht.
    apply upcomingOf_elem in He. tauto. }
  apply deduplicateEvents_titled in Hup as [unique Hd].
  destruct (handleNewEvents_Ok evs unique w Hd Hne) as (stored & _ & ->).
  cbn [snd]. eauto.
Qed.

(* ------------------------------------------------------------------ *)
(** ** Clean-up of the stored events *)

(** [scheduleReminder] writes one alarm name and one storage key, those
    derived from its event; nothing else is read or written. *)
Lemma scheduleReminder_frame (e : Event) (w : World) (n : string) :
  Service.alarmName e <> n ->
  alarms (fst (Service.scheduleReminder e w)) !! n = alarms w !! n /\
  local (fst (Service.scheduleReminder e w)) !! StorageManager.eventKey n =
    local w !! StorageManager.eventKey n.
Proof.
  intros Hne. pose proof (scheduleReminder_effect e w) as He.
  destruct (snd (Service.scheduleReminder e w)); try (rewrite He; auto).
  destruct He as (-> & _ & ->). cbn. rewrite !lookup_insert_ne; auto.
  unfold StorageManager.eventKey. intros H. apply append_prefix_inj in H. auto.
Qed.

Lemma scheduleAll_frame (es : list Event) :
  forall (w : World) (n : string),
    (forall e, In e es -> Service.alarmName e <> n) ->
    alarms (fst (Service.scheduleAll es w)) !! n = alarms w !! n /\
    local (fst (Service.scheduleAll es w)) !! StorageManager.eventKey n =
      local w !! StorageManager.eventKey n.
Proof.
  induction es as [|e es IH]; intros w n Hne; [cbn; auto|].
  rewrite scheduleAll_cons. cbn [fst].
  destruct (IH (fst (Service.scheduleReminder e w)) n) as [Ha Hl].
  { intros e' He'. apply Hne. right. exact He'. }
  destruct (scheduleReminder_frame e w n) as [Ha' Hl']; [apply Hne; left; reflexivity|].
  rewrite Ha, Hl. auto.
Qed.

(** X20. When the stored set holds duplicates, [deduplicateStoredEvents]
    clears every alarm whose name starts with [meeting_] and schedules
    the reconciled events again. The triggers of pending snoozes are
    among the alarms cleared and are not created again: after the
    clean-up no snooze alarm is live, while its snapshot is still in the
    store. *)
Theorem deduplicateStoredEvents_cancels_snoozes
    (w : World) (unique : list Event) (x : string) :
  Service.deduplicateEvents (events w) = Ok unique ->
  length (events w) <> length unique ->
  let name := String.append ALARM_NAMES.MEETING_PREFIX (String.append x "_snooze") in
  let w' := Service.deduplicateStoredEvents w in
  events w' = unique /\
  Alarms.get name w' = None /\
  StorageManager.getEvent name w' = StorageManager.getEvent name w.
Proof.
  intros Hd Hlen name w'. subst w'.
  unfold Service.deduplicateStoredEvents, StorageManager.getEvents. rewrite Hd.
  destruct (Nat.eqb_spec (length (events w)) (length unique)) as [Heq|_]; [contradiction|].
  split; [rewrite scheduleAll_events; reflexivity|].
  destruct (scheduleAll_frame unique
              (Service.clearMeetingAlarms (StorageManager.saveEvents unique w)) name)
    as [Ha Hl].
  { intros e _. apply alarmName_not_snooze. }
  unfold Alarms.get, StorageManager.getEvent. rewrite Ha, Hl. cbn.
  split; [|reflexivity].
  apply map_lookup_filter_None. right. intros t _. cbn.
  unfold JS.startsWith, name. change "meeting_" with ALARM_NAMES.MEETING_PREFIX.
  rewrite prefix_append. discriminate.
Qed.

(** Witness of X20: 'Team Sync' is stored twice and a snooze of another
    meeting is pending. *)
Lemma deduplicateStoredEvents_cancels_snoozes_witness :
  let e := mkEvent (Some "g1") (Some "Team Sync") (Some (Valid 1700000040000)) None
             None None None None (Some "google-api") false 0 in
  let w := mkWorld {["meeting_g7_snooze" := 1699999100000]} ∅ [e; e]
             DEFAULT_SETTINGS (mkApiStatus true true) 1699999000000 (mkBadge "" "") in
  Alarms.get "meeting_g7_snooze" (Service.deduplicateStoredEvents w) = None.
Proof.
  intros e w.
  refine (proj1 (proj2 (deduplicateStoredEvents_cancels_snoozes w [e] "g7" eq_refl _))).
  cbn. discriminate.
Defined.

(* ------------------------------------------------------------------ *)
(** ** Bounded retry of the token refresh *)

Lemma fetches_app (l1 l2 : list TokenEffect) :
  fetches (l1 ++ l2) = fetches l1 ++ fetches l2.
Proof. unfold fetches. apply omap_app. Qed.

Lemma fetches_cons_fetch (a : nat) (l : list TokenEffect) :
  fetches (DidFetch a :: l) = a :: fetches l.
Proof. reflexivity. Qed.

(** The loop from attempt [attempt] with [left] attempts to go. *)
Lemma refreshLoop_bounded (fetch : nat -> FetchResult) (retries : nat) :
  forall (left attempt : nat) (lastError : exn),
    (attempt + left = retries + 1)%nat ->
    let eff := snd (CalendarAPI.refreshLoop fetch retries attempt left lastError) in
    (length (fetches eff) <= left)%nat /\
    (forall a, In (DidFetch a) eff -> (attempt <= a <= retries)%nat) /\
    (forall ms, In (DidSleep ms) eff ->
       exists k, (attempt <= k < retries)%nat /\ ms = 2 ^ Z.of_nat k * 500) /\
    (forall name, ~ In (DidNotify name) eff) /\
    (forall a, ~ In (DidGetAuthToken a) eff) /\
    (left <> O -> exists l a, eff = l ++ [DidFetch a]).
Proof.
  induction left as [|left IH]; intros attempt lastError Hinv eff; subst eff.
  { cbn. repeat split; unfold not; intros; try contradiction; lia. }
  cbn [CalendarAPI.refreshLoop].
  assert (Hstop : forall (r : res TokenResponse),
    let eff := snd (r, [DidFetch attempt]) in
    (length (fetches eff) <= S left)%nat /\
    (forall a, In (DidFetch a) eff -> (attempt <= a <= retries)%nat) /\
    (forall ms, In (DidSleep ms) eff ->
       exists k, (attempt <= k < retries)%nat /\ ms = 2 ^ Z.of_nat k * 500) /\
    (forall name, ~ In (DidNotify name) eff) /\
    (forall a, ~ In (DidGetAuthToken a) eff) /\
    (S left <> O -> exists l a, eff = l ++ [DidFetch a])).
  { intros r. cbn. repeat split; try lia.
    - destruct H as [[= <-]|[]]. lia.
    - destruct H as [[= <-]|[]]. lia.
    - intros ms [H|[]]. discriminate H.
    - intros name [H|[]]. discriminate H.
    - intros a [H|[]]. discriminate H.
    - intros _. exists [], attempt. reflexivity. }
  assert (Hgo : forall (message : string),
    let eff := snd (let '(r, eff) :=
                      (if CalendarAPI.isAuthError message then (Throw (Error message), [])
                       else
                         let pause := if (attempt <? retries)%nat
                                      then [DidSleep (2 ^ Z.of_nat attempt * 500)] else [] in
                         let '(r, eff) :=
                           CalendarAPI.refreshLoop fetch retries (S attempt) left (Error message) in
                         (r, pause ++ eff)) in
                    (r, DidFetch attempt :: eff)) in
    (length (fetches eff) <= S left)%nat /\
    (forall a, In (DidFetch a) eff -> (attempt <= a <= retries)%nat) /\
    (forall ms, In (DidSleep ms) eff ->
       exists k, (attempt <= k < retries)%nat /\ ms = 2 ^ Z.of_nat k * 500) /\
    (forall name, ~ In (DidNotify name) eff) /\
    (forall a, ~ In (DidGetAuthToken a) eff) /\
    (S left <> O -> exists l a, eff = l ++ [DidFetch a])).
  { intros message. destruct (CalendarAPI.isAuthError message); [apply Hstop|].
    specialize (IH (S attempt) (Error message) ltac:(lia)). cbn zeta in IH.
    destruct (CalendarAPI.refreshLoop fetch retries (S attempt) left (Error message))
      as [r eff] eqn:Hloop.
    cbn [snd] in IH |- *. destruct IH as (Hlen & Hf & Hs & Hn & Hg & Hlast).
    assert (Hpause : forall x,
      In x (if (attempt <? retries)%nat then [DidSleep (2 ^ Z.of_nat attempt * 500)] else []) ->
      x = DidSleep (2 ^ Z.of_nat attempt * 500) /\ (attempt < retries)%nat).
    { destruct (Nat.ltb_spec attempt retries); [|intros ? []].
      intros x [<-|[]]. auto. }
    split; [|split; [|split; [|split; [|split]]]].
    - rewrite fetches_cons_fetch, fetches_app.
      replace (fetches (if (attempt <? retries)%nat
                        then [DidSleep (2 ^ Z.of_nat attempt * 500)] else []))
        with (@nil nat) by (destruct (attempt <? retries)%nat; reflexivity).
      cbn [app length]. lia.
    - intros a [[= <-]|[H|H]%in_app_iff]; [lia| |].
      + destruct (Hpause _ H) as [[=] _].
      + specialize (Hf a H). lia.
    - intros ms [H|[H|H]%in_app_iff]; [discriminate H| |].
      + destruct (Hpause _ H) as [[= ->] Hlt]. exists attempt. split; [lia|reflexivity].
      + destruct (Hs ms H) as (k & Hk & ->). exists k. split; [lia|reflexivity].
    - intros name [H|[H|H]%in_app_iff]; [discriminate H| |exact (Hn name H)].
      destruct (Hpause _ H) as [[=] _].
    - intros a [H|[H|H]%in_app_iff]; [discriminate H| |exact (Hg a H)].
      destruct (Hpause _ H) as [[=] _].
    - intros _. destruct left as [|left'].
      + cbn in Hloop. injection Hloop as <- <-.
        destruct (Nat.ltb_spec attempt retries); [lia|].
        exists [], attempt. reflexivity.
      + destruct (Hlast ltac:(discriminate)) as (l & a & ->).
        exists (DidFetch attempt ::
                (if (attempt <? retries)%nat
                 then [DidSleep (2 ^ Z.of_nat attempt * 500)] else []) ++ l), a.
        cbn. rewrite <- app_assoc. reflexivity. }
  destruct (fetch attempt) as [message|[|] status [t|e|message]];
    try apply Hgo; apply Hstop.
Qed.

(** X21. The retry of [refreshGoogleToken] is bounded whatever the
    endpoint answers: at most [retries] requests are made, numbered from
    1; every pause is [2^k * 500] ms after the failed attempt [k] and
    there is none after the last request; the loop itself never
    notifies the user. *)
Theorem refreshGoogleToken_bounded (fetch : nat -> FetchResult) (retries : nat) :
  let eff := snd (CalendarAPI.refreshGoogleToken fetch retries) in
  (length (fetches eff) <= retries)%nat /\
  (forall a, In (DidFetch a) eff -> (1 <= a <= retries)%nat) /\
  (forall ms, In (DidSleep ms) eff ->
     exists k, (1 <= k < retries)%nat /\ ms = 2 ^ Z.of_nat k * 500) /\
  (forall name, ~ In (DidNotify name) eff) /\
  (retries <> O -> exists l a, eff = l ++ [DidFetch a]).
Proof.
  unfold CalendarAPI.refreshGoogleToken.
  destruct (refreshLoop_bounded fetch retries retries 1 Undefined ltac:(lia))
    as (H1 & H2 & H3 & H4 & _ & H6).
  auto.
Qed.

Lemma refreshLoop_transient_step (fetch : nat -> FetchResult) (retries attempt left : nat)
    (lastError : exn) :
  transient (fetch attempt) ->
  exists message,
    CalendarAPI.isAuthError message = false /\
    fst (CalendarAPI.refreshLoop fetch retries attempt (S left) lastError) =
      fst (CalendarAPI.refreshLoop fetch retries (S attempt) left (Error message)) /\
    fetches (snd (CalendarAPI.refreshLoop fetch retries attempt (S left) lastError)) =
      attempt :: fetches (snd (CalendarAPI.refreshLoop fetch retries (S attempt) left
                                 (Error message))).
Proof.
  intros Ht. cbn [CalendarAPI.refreshLoop].
  assert (Hgo : forall message, CalendarAPI.isAuthError message = false ->
    exists message0,
      CalendarAPI.isAuthError message0 = false /\
      fst (let '(r, eff) :=
             (if CalendarAPI.isAuthError message then (Throw (Error message), [])
              else
                let pause := if (attempt <? retries)%nat
                             then [DidSleep (2 ^ Z.of_nat attempt * 500)] else [] in
                let '(r, eff) :=
                  CalendarAPI.refreshLoop fetch retries (S attempt) left (Error message) in
                (r, pause ++ eff)) in
           (r, DidFetch attempt :: eff)) =
        fst (CalendarAPI.refreshLoop fetch retries (S attempt) left (Error message0)) /\
      fetches (snd (let '(r, eff) :=
             (if CalendarAPI.isAuthError message then (Throw (Error message), [])
              else
                let pause := if (attempt <? retries)%nat
                             then [DidSleep (2 ^ Z.of_nat attempt * 500)] else [] in
                let '(r, eff) :=
                  CalendarAPI.refreshLoop fetch retries (S attempt) left (Error message) in
                (r, pause ++ eff)) in
           (r, DidFetch attempt :: eff))) =
        attempt :: fetches (snd (CalendarAPI.refreshLoop fetch retries (S attempt) left
                                   (Error message0)))).
  { intros message Hm. exists message. split; [exact Hm|]. rewrite Hm.
    destruct (CalendarAPI.refreshLoop fetch retries (S attempt) left (Error message))
      as [r eff].
    cbn [fst snd]. split; [reflexivity|].
    rewrite fetches_cons_fetch, fetches_app.
    destruct (attempt <? retries)%nat; reflexivity. }
  unfold transient in Ht.
  destruct (fetch attempt) as [message|[|] status body]; [|contradiction|].
  - apply Hgo. exact Ht.
  - destruct body; apply Hgo; exact Ht.
Qed.

Lemma refreshLoop_recovers (fetch : nat -> FetchResult) (retries k : nat)
    (status : Z) (t : TokenResponse) :
  fetch k = Response true status (TokensJson t) ->
  forall (left attempt : nat) (lastError : exn),
    (attempt <= k < attempt + left)%nat ->
    (forall a, (attempt <= a < k)%nat -> transient (fetch a)) ->
    fst (CalendarAPI.refreshLoop fetch retries attempt left lastError) = Ok t /\
    fetches (snd (CalendarAPI.refreshLoop fetch retries attempt left lastError)) =
      seq attempt (k - attempt + 1).
Proof.
  intros Hk. induction left as [|left IH]; intros attempt lastError Hrange Htr; [lia|].
  destruct (decide (attempt = k)) as [->|Hne].
  - cbn [CalendarAPI.refreshLoop]. rewrite Hk. cbn.
    replace (k - k + 1)%nat with 1%nat by lia. auto.
  - destruct (refreshLoop_transient_step fetch retries attempt left lastError)
      as (message & _ & -> & ->); [apply Htr; lia|].
    destruct (IH (S attempt) (Error message)) as [-> ->]; [lia|intros a Ha; apply Htr; lia|].
    split; [reflexivity|].
    replace (k - attempt + 1)%nat with (S (k - S attempt + 1)) by lia. reflexivity.
Qed.

Lemma refreshLoop_exhausts (fetch : nat -> FetchResult) (retries : nat) :
  forall (left attempt : nat) (lastError : exn),
    (forall a, (attempt <= a < attempt + S left)%nat -> transient (fetch a)) ->
    (exists message,
       fst (CalendarAPI.refreshLoop fetch retries attempt (S left) lastError) =
         Throw (Error message) /\ CalendarAPI.isAuthError message = false) /\
    fetches (snd (CalendarAPI.refreshLoop fetch retries attempt (S left) lastError)) =
      seq attempt (S left).
Proof.
  induction left as [|left IH]; intros attempt lastError Htr.
  - destruct (refreshLoop_transient_step fetch retries attempt 0 lastError)
      as (message & Hm & -> & ->); [apply Htr; lia|].
    cbn. split; [exists message; auto|reflexivity].
  - destruct (refreshLoop_transient_step fetch retries attempt (S left) lastError)
      as (message & Hm & -> & ->); [apply Htr; lia|].
    destruct (IH (S attempt) (Error message)) as [He ->]; [intros a Ha; apply Htr; lia|].
    split; [exact He|reflexivity].
Qed.

(** X22. The bounded retry recovers from transient failures: when the
    first [k - 1] requests fail with errors that are not auth errors
    and the request [k] (at most the number of retries) is answered
    with tokens, [refreshGoogleToken] returns those tokens after
    exactly the requests 1 to [k]. *)
Theorem refreshGoogleToken_recovers
    (fetch : nat -> FetchResult) (retries k : nat) (status : Z) (t : TokenResponse) :
  (1 <= k <= retries)%nat ->
  (forall a, (1 <= a < k)%nat -> transient (fetch a)) ->
  fetch k = Response true status (TokensJson t) ->
  fst (CalendarAPI.refreshGoogleToken fetch retries) = Ok t /\
  fetches (snd (CalendarAPI.refreshGoogleToken fetch retries)) = seq 1 k.
Proof.
  intros Hk Htr Hok. unfold CalendarAPI.refreshGoogleToken.
  destruct (refreshLoop_recovers fetch retries k status t Hok retries 1 Undefined)
    as [-> ->]; [lia|exact Htr|].
  split; [reflexivity|]. f_equal. lia.
Qed.

(** Witness of X22: a network failure, then a 503, then the tokens. *)
Lemma refreshGoogleToken_recovers_witness :
  let t := mkTokenResponse (Some "ya29.new") None (Some 3599) in
  let fetch : nat -> FetchResult := fun a =>
    match a with
    | 1%nat => FetchRejected "Failed to fetch"
    | 2%nat => Response false 503 (NotJson "Unexpected token < in JSON at position 0")
    | _ => Response true 200 (TokensJson t)
    end in
  fst (CalendarAPI.refreshGoogleToken fetch 3) = Ok t.
Proof.
  intros t fetch.
  refine (proj1 (refreshGoogleToken_recovers fetch 3 3 200 t _ _ eq_refl)); [lia|].
  intros [|[|[|a]]] Ha; try lia; reflexivity.
Defined.

(** X23. When every request fails with an error that is not an auth
    error, [refreshGoogleToken] makes exactly [retries] requests and
    then throws the error of a request, and [getValidToken], with a
    record that is due for refresh in advanced mode, ends disconnected,
    with one notification and null. *)
Theorem refresh_exhausted_disconnects
    (fetch : nat -> FetchResult) (identity : nat -> IdentityResult) (nowMs : Z)
    (credentials : Credentials) (c : Connection) (expiry : Z) :
  (forall a, (1 <= a <= 3)%nat -> transient (fetch a)) ->
  connected c = true -> JS.truthyStr (accessToken c) = true ->
  expiresAt c = Some expiry -> expiry <> 0 -> expiry - 300000 < nowMs ->
  authMode c <> Some "simple" ->
  JS.truthyStr (refreshToken c) = true ->
  JS.truthyStr (clientId credentials) = true ->
  fetches (snd (CalendarAPI.refreshGoogleToken fetch 3)) = [1; 2; 3]%nat /\
  exists eff,
    CalendarAPI.getValidToken fetch identity nowMs (Some credentials) (Some c) =
      (Some CalendarAPI.disconnected, None, eff ++ [DidNotify "Google Calendar"]) /\
    fetches eff = [1; 2; 3]%nat.
Proof.
  intros Htr Hc Ha He Hne Hexp Hmode Hr Hid.
  destruct (refreshLoop_exhausts fetch 3 2 1 Undefined) as [(message & Hthrow & _) Hf].
  { intros a Hrange. apply Htr. lia. }
  change (CalendarAPI.refreshLoop fetch 3 1 3 Undefined)
    with (CalendarAPI.refreshGoogleToken fetch 3) in Hthrow, Hf.
  split; [exact Hf|].
  exists (snd (CalendarAPI.refreshGoogleToken fetch 3)). split; [|exact Hf].
  apply (getValidToken_refresh_failure fetch identity nowMs credentials c
           (Error message) _ expiry); try assumption.
  rewrite <- Hthrow. apply surjective_pairing.
Qed.

(** Witness of X23: the endpoint is unreachable. *)
Lemma refresh_exhausted_disconnects_witness :
  let fetch : nat -> FetchResult := fun _ => FetchRejected "Failed to fetch" in
  fetches (snd (CalendarAPI.refreshGoogleToken fetch 3)) = [1; 2; 3]%nat.
Proof.
  intros fetch.
  refine (proj1 (refresh_exhausted_disconnects fetch (fun _ => NoToken) 1700000000000
            (mkCredentials (Some "client-1") None)
            (mkConnection true (Some "ya29.old") (Some "1//refresh")
               (Some 1700000000000) (Some "advanced"))
            1700000000000 _ eq_refl eq_refl eq_refl _ _ _ eq_refl eq_refl));
    try lia; try discriminate.
  intros a _. reflexivity.
Defined.

(* ------------------------------------------------------------------ *)
(** ** What [getValidToken] returns and persists *)

Lemma simpleLoop_effects (identity : nat -> IdentityResult) (maxRetries : nat) :
  forall (left attempt : nat),
    (forall name, ~ In (DidNotify name)
                    (snd (CalendarAPI.simpleLoop identity maxRetries attempt left))) /\
    (left <> O -> snd (CalendarAPI.simpleLoop identity maxRetries attempt left) <> []).
Proof.
  induction left as [|left IH]; intros attempt.
  { cbn. split; [intros ? []|congruence]. }
  cbn [CalendarAPI.simpleLoop].
  assert (Hgo : forall message,
    let out := (let '(r, eff) :=
                  (if JS.includes message "user" || JS.includes message "denied" ||
                      JS.includes message "not signed in"
                   then (None, [])
                   else
                     let pause := if (attempt <? maxRetries)%nat
                                  then [DidSleep (2 ^ Z.of_nat attempt * 500)] else [] in
                     let '(r, eff) :=
                       CalendarAPI.simpleLoop identity maxRetries (S attempt) left in
                     (r, pause ++ eff)) in
                (r, DidGetAuthToken attempt :: eff)) in
    (forall name, ~ In (DidNotify name) (snd out)) /\ (S left <> O -> snd out <> [])).
  { intros message.
    destruct (JS.includes message "user" || JS.includes message "denied" ||
              JS.includes message "not signed in").
    - cbn. split; [intros name [H|[]]; discriminate H|discriminate].
    - destruct (IH (S attempt)) as [Hn _].
      destruct (CalendarAPI.simpleLoop identity maxRetries (S attempt) left) as [r eff].
      cbn [snd] in *. split; [|discriminate].
      intros name [H|[H|H]%in_app_iff]; [discriminate H| |exact (Hn name H)].
      destruct (attempt <? maxRetries)%nat; [destruct H as [H|[]]; discriminate H|destruct H]. }
  destruct (identity attempt) as [token|message|]; try apply Hgo.
  destruct (String.eqb token ""); [apply Hgo|].
  cbn. split; [intros name [H|[]]; discriminate H|discriminate].
Qed.

(** X24. Whatever the stored record, the credentials and the answers of
    the network are: a token that [getValidToken] returns is the access
    token of the record it leaves in the store, and that record is
    connected; the user is notified only when the record has been
    replaced by the disconnected one and null is returned, and always
    when a connected record is replaced by it; a call without any
    effect leaves the record as it was. *)
Theorem getValidToken_consistent
    (fetch : nat -> FetchResult) (identity : nat -> IdentityResult) (nowMs : Z)
    (credentials : option Credentials) (stored : option Connection) :
  let stored' := (CalendarAPI.getValidToken fetch identity nowMs credentials stored).1.1 in
  let token := (CalendarAPI.getValidToken fetch identity nowMs credentials stored).1.2 in
  let eff := (CalendarAPI.getValidToken fetch identity nowMs credentials stored).2 in
  (forall t, token = Some t ->
     exists c, stored' = Some c /\ connected c = true /\ accessToken c = Some t) /\
  (forall name, In (DidNotify name) eff ->
     name = "Google Calendar" /\ stored' = Some CalendarAPI.disconnected /\ token = None) /\
  (forall c, stored = Some c -> connected c = true ->
     stored' = Some CalendarAPI.disconnected -> In (DidNotify "Google Calendar") eff) /\
  (eff = [] -> stored' = stored).
Proof.
  unfold CalendarAPI.getValidToken.
  destruct stored as [c|]; cbn zeta.
  2:{ cbn. repeat split; try discriminate; intros; contradiction. }
  destruct (connected c) eqn:Hc; cbn [negb orb].
  2:{ cbn. repeat split; try discriminate; try (intros; contradiction).
      intros c' [= <-] Hc'. congruence. }
  destruct (JS.truthyStr (accessToken c)) eqn:Ha; cbn [negb].
  2:{ cbn. repeat split; try discriminate; try (intros; contradiction).
      intros c' [= <-] _ [= ->]. cbn in Hc. discriminate Hc. }
  assert (Hkeep : forall (b : bool),
    let out := (Some c, accessToken c, @nil TokenEffect) in
    (forall t, out.1.2 = Some t ->
       exists c0, out.1.1 = Some c0 /\ connected c0 = true /\ accessToken c0 = Some t) /\
    (forall name, In (DidNotify name) out.2 ->
       name = "Google Calendar" /\ out.1.1 = Some CalendarAPI.disconnected /\ out.1.2 = None) /\
    (forall c0, Some c = Some c0 -> connected c0 = true ->
       out.1.1 = Some CalendarAPI.disconnected -> In (DidNotify "Google Calendar") out.2) /\
    (out.2 = [] -> out.1.1 = Some c)).
  { intros _. cbn. repeat split; try (intros; contradiction).
    - intros t Ht. exists c. auto.
    - intros c0 [= <-] _ [= ->]. cbn in Hc. discriminate Hc. }
  assert (Hdisc : forall (eff : list TokenEffect),
    (forall name, ~ In (DidNotify name) eff) ->
    let out := (Some CalendarAPI.disconnected, @None string,
                eff ++ [DidNotify "Google Calendar"]) in
    (forall t, out.1.2 = Some t ->
       exists c0, out.1.1 = Some c0 /\ connected c0 = true /\ accessToken c0 = Some t) /\
    (forall name, In (DidNotify name) out.2 ->
       name = "Google Calendar" /\ out.1.1 = Some CalendarAPI.disconnected /\ out.1.2 = None) /\
    (forall c0, Some c = Some c0 -> connected c0 = true ->
       out.1.1 = Some CalendarAPI.disconnected -> In (DidNotify "Google Calendar") out.2) /\
    (out.2 = [] -> out.1.1 = Some c)).
  { intros eff Hno. cbn. repeat split; try discriminate.
    - apply in_app_iff in H as [H|[[= <-]|[]]]; [destruct (Hno _ H)|reflexivity].
    - intros _ _ _ _. apply in_app_iff. right. left. reflexivity.
    - intros H. destruct eff; discriminate H. }
  assert (Hnew : forall (c' : Connection) (tok : option string) (eff : list TokenEffect),
    connected c' = true -> accessToken c' = tok ->
    (forall name, ~ In (DidNotify name) eff) -> eff <> [] ->
    let out := (Some c', tok, eff) in
    (forall t, out.1.2 = Some t ->
       exists c0, out.1.1 = Some c0 /\ connected c0 = true /\ accessToken c0 = Some t) /\
    (forall name, In (DidNotify name) out.2 ->
       name = "Google Calendar" /\ out.1.1 = Some CalendarAPI.disconnected /\ out.1.2 = None) /\
    (forall c0, Some c = Some c0 -> connected c0 = true ->
       out.1.1 = Some CalendarAPI.disconnected -> In (DidNotify "Google Calendar") out.2) /\
    (out.2 = [] -> out.1.1 = Some c)).
  { intros c' tok eff Hc' Ha' Hno Hne. cbn. repeat split.
    - intros t ->. exists c'. auto.
    - destruct (Hno _ H).
    - destruct (Hno _ H).
    - destruct (Hno _ H).
    - intros _ _ _ [= ->]. cbn in Hc'. discriminate Hc'.
    - intros H. contradiction. }
  destruct (expiresAt c) as [e|]; [|apply (Hkeep true)].
  destruct (negb (e =? 0) && (e - 300000 <? nowMs)); cbn [negb]; [|apply (Hkeep true)].
  destruct (bool_decide (authMode c = Some "simple")).
  - destruct (simpleLoop_effects identity 3 3 1) as [Hno Hne].
    destruct (CalendarAPI.simpleLoop identity 3 1 3) as [[newToken|] eff]; cbn [snd] in *.
    + apply Hnew; auto.
    + apply Hdisc. exact Hno.
  - destruct (JS.truthyStr (refreshToken c)); [|apply (Hdisc []); intros ? []].
    destruct (negb (JS.truthyStr (credentials ≫= clientId)));
      [apply (Hdisc []); intros ? []|].
    destruct (refreshLoop_bounded fetch 3 3 1 Undefined ltac:(lia))
      as (_ & _ & _ & Hno & _ & Hlast).
    unfold CalendarAPI.refreshGoogleToken.
    destruct (CalendarAPI.refreshLoop fetch 3 1 3 Undefined) as [[tokens|x] eff];
      cbn [snd] in *.
    + apply Hnew; auto.
      destruct (Hlast ltac:(discriminate)) as (l & a & ->). destruct l; discriminate.
    + apply Hdisc. exact Hno.
Qed.

Lemma asOutlook_id (eff : list TokenEffect) :
  (forall name, ~ In (DidNotify name) eff) -> map asOutlook eff = eff.
Proof.
  induction eff as [|x eff IH]; intros Hno; [reflexivity|].
  cbn [map]. rewrite IH by (intros name H; apply (Hno name); right; exact H).
  f_equal. destruct x; try reflexivity. destruct (Hno calendarName). left. reflexivity.
Qed.

(** X25. [getValidOutlookToken] is [getValidToken] for a record that is
    not in simple mode: on the same record, credentials, clock and
    answers of the token endpoint, the two return the same token and
    persist the same record, and their effects differ in the calendar
    named by the notification only. *)
Theorem getValidOutlookToken_as_google
    (fetch : nat -> FetchResult) (identity : nat -> IdentityResult) (nowMs : Z)
    (credentials : option Credentials) (stored : option Connection) :
  (forall c, stored = Some c -> authMode c <> Some "simple") ->
  CalendarAPI.getValidOutlookToken fetch nowMs credentials stored =
    ((CalendarAPI.getValidToken fetch identity nowMs credentials stored).1,
     map asOutlook (CalendarAPI.getValidToken fetch identity nowMs credentials stored).2).
Proof.
  intros Hmode. unfold CalendarAPI.getValidOutlookToken, CalendarAPI.getValidToken.
  destruct stored as [c|]; [|reflexivity].
  destruct (negb (connected c) || negb (JS.truthyStr (accessToken c))); [reflexivity|].
  destruct (expiresAt c) as [e|]; [|reflexivity].
  destruct (negb (e =? 0) && (e - 300000 <? nowMs)); cbn [negb]; [|reflexivity].
  rewrite bool_decide_false by (apply Hmode; reflexivity).
  destruct (JS.truthyStr (refreshToken c)); [|reflexivity].
  destruct (negb (JS.truthyStr (credentials ≫= clientId))); [reflexivity|].
  destruct (refreshLoop_bounded fetch 3 3 1 Undefined ltac:(lia))
    as (_ & _ & _ & Hno & _ & _).
  unfold CalendarAPI.refreshOutlookToken, CalendarAPI.refreshGoogleToken.
  destruct (CalendarAPI.refreshLoop fetch 3 1 3 Undefined) as [[tokens|x] eff];
    cbn [fst snd] in *.
  - rewrite asOutlook_id by exact Hno. reflexivity.
  - rewrite map_app, asOutlook_id by exact Hno. reflexivity.
Qed.

(** Witness of X25: an expired Outlook record and an endpoint that says
    the grant has been revoked. *)
Lemma getValidOutlookToken_as_google_witness :
  let fetch : nat -> FetchResult := fun _ =>
    Response false 400 (ErrorJson (mkErrorBody (Some "invalid_grant")
      (Some "AADSTS50173: The provided grant has expired due to it being revoked."))) in
  let stored := Some (mkConnection true (Some "EwB.old") (Some "M.R3.refresh")
                        (Some 1700000000000) None) in
  CalendarAPI.getValidOutlookToken fetch 1700000000000
    (Some (mkCredentials (Some "client-1") None)) stored =
  (Some CalendarAPI.disconnected, None, [DidFetch 1; DidNotify "Outlook Calendar"]).
Proof.
  intros fetch stored.
  rewrite (getValidOutlookToken_as_google fetch (fun _ => NoToken)).
  - reflexivity.
  - intros c [= <-]. discriminate.
Defined.

(* ------------------------------------------------------------------ *)
(** ** Settings, window position and the offscreen channel *)

Section HostFacts.

Import NotificationManager.

Variable host : Host.

(** For a window that reports its width and height,
    [calculateOptimalWindowPosition] asks for the current window once,
    never throws, and returns a position that is at least 50 pixels from
    the top and from the left of the screen. *)
Lemma calculateOptimalWindowPosition_bounds (st : DispatchState) :
  exists top left,
    calculateOptimalWindowPosition host st =
      (record WindowsGetCurrent st, Ok (top, left)) /\
    50 <= top /\ 50 <= left.
Proof.
  unfold calculateOptimalWindowPosition, tryCatch, bind, await.
  destruct (rejects host (calls st) WindowsGetCurrent) as [m|].
  - exists 100, 100. cbn. repeat split; lia.
  - destruct (currentWindow host) as [[[wtop|] [wleft|] width height]|];
      try (exists 100, 100; cbn; repeat split; lia).
    eexists _, _. cbn. split; [reflexivity|]. split; apply Z.le_max_l.
Qed.

(** X26. Once reading the synced settings has failed,
    [StorageManager] stays on local storage: the failing call falls
    back to chrome.storage.local and clears [useSyncStorage], and every
    later [getSettings] reads chrome.storage.local only. *)
Theorem getSettings_fallback_is_sticky (st : DispatchState) (m : string) :
  useSyncStorage st = true ->
  rejects host (calls st) StorageSyncGet = Some m ->
  let st1 := fst (getSettings host st) in
  calls st1 = calls st ++ [StorageSyncGet; StorageLocalGet] /\
  useSyncStorage st1 = false /\
  forall st2, useSyncStorage st2 = false ->
    calls (fst (getSettings host st2)) = calls st2 ++ [StorageLocalGet] /\
    useSyncStorage (fst (getSettings host st2)) = false.
Proof.
  intros Hflag Hrej. split; [|split].
  - unfold getSettings. rewrite Hflag.
    unfold tryCatch, bind, await, setUseSyncStorage, ret. rewrite Hrej. cbn.
    destruct (rejects host _ StorageLocalGet); cbn; rewrite <- app_assoc; reflexivity.
  - unfold getSettings. rewrite Hflag.
    unfold tryCatch, bind, await, setUseSyncStorage, ret. rewrite Hrej. cbn.
    destruct (rejects host _ StorageLocalGet); reflexivity.
  - intros st2 H2. unfold getSettings. rewrite H2.
    unfold bind, await, ret.
    destruct (rejects host (calls st2) StorageLocalGet); cbn; auto.
Qed.

End HostFacts.

(** Witness of X26: chrome.storage.sync is unavailable. *)
Lemma getSettings_fallback_is_sticky_witness :
  let host :=
    mkHost (fun _ c => match c with
                       | StorageSyncGet => Some "sync is not available"
                       | _ => None
                       end)
      true None (Some DEFAULT_SETTINGS) None (fun _ => 0%nat) in
  let st := mkDispatchState [] true in
  useSyncStorage (fst (NotificationManager.getSettings host st)) = false.
Proof.
  intros host st.
  exact (proj1 (proj2 (getSettings_fallback_is_sticky host st "sync is not available"
                         eq_refl eq_refl))).
Defined.

(* ------------------------------------------------------------------ *)
(** ** The channels after the OS notification *)

Section ChannelFacts.

Import NotificationManager.

Variable host : Host.

Lemma begins_appendsOnly {A : Type} (c : Call) (m : M A) : begins c m -> appendsOnly m.
Proof. intros H st. destruct (H st) as [l Hl]. eauto. Qed.

Lemma ret_appendsOnly {A : Type} (a : A) : appendsOnly (ret a).
Proof. intros st. exists []. cbn. rewrite app_nil_r. reflexivity. Qed.

Lemma throw_appendsOnly {A : Type} (e : exn) : appendsOnly (@throw A e).
Proof. intros st. exists []. cbn. rewrite app_nil_r. reflexivity. Qed.

Lemma await_begins (c : Call) : begins c (await host c).
Proof.
  intros st. exists []. unfold await.
  destruct (rejects host (calls st) c); reflexivity.
Qed.

Lemma sleep_appendsOnly (ms : Z) : appendsOnly (sleep ms).
Proof. intros st. exists [Sleep ms]. reflexivity. Qed.

Lemma bind_appendsOnly {A B : Type} (m : M A) (k : A -> M B) :
  appendsOnly m -> (forall a, appendsOnly (k a)) -> appendsOnly (bind m k).
Proof.
  intros Hm Hk st. destruct (Hm st) as [l Hl]. unfold bind.
  destruct (m st) as [st1 [a|e]]; cbn [fst] in *; [|eauto].
  destruct (Hk a st1) as [l' Hl']. exists (l ++ l'). rewrite Hl', Hl, app_assoc. reflexivity.
Qed.

Lemma tryCatch_appendsOnly {A : Type} (m : M A) (handler : exn -> M A) :
  appendsOnly m -> (forall e, appendsOnly (handler e)) -> appendsOnly (tryCatch m handler).
Proof.
  intros Hm Hh st. destruct (Hm st) as [l Hl]. unfold tryCatch.
  destruct (m st) as [st1 [a|e]]; cbn [fst] in *; [eauto|].
  destruct (Hh e st1) as [l' Hl']. exists (l ++ l'). rewrite Hl', Hl, app_assoc. reflexivity.
Qed.

Lemma bind_begins {A B : Type} (c : Call) (m : M A) (k : A -> M B) :
  begins c m -> (forall a, appendsOnly (k a)) -> begins c (bind m k).
Proof.
  intros Hm Hk st. destruct (Hm st) as [l Hl]. unfold bind.
  destruct (m st) as [st1 [a|e]]; cbn [fst] in *; [|eauto].
  destruct (Hk a st1) as [l' Hl']. exists (l ++ l').
  rewrite Hl', Hl, <- app_assoc. reflexivity.
Qed.

Lemma tryCatch_begins {A : Type} (c : Call) (m : M A) (handler : exn -> M A) :
  begins c m -> (forall e, appendsOnly (handler e)) -> begins c (tryCatch m handler).
Proof.
  intros Hm Hh st. destruct (Hm st) as [l Hl]. unfold tryCatch.
  destruct (m st) as [st1 [a|e]]; cbn [fst] in *; [eauto|].
  destruct (Hh e st1) as [l' Hl']. exists (l ++ l').
  rewrite Hl', Hl, <- app_assoc. reflexivity.
Qed.

Lemma when_appendsOnly (b : bool) (m : M unit) : appendsOnly m -> appendsOnly (when b m).
Proof. intros Hm. destruct b; [exact Hm|apply ret_appendsOnly]. Qed.

Lemma await_appendsOnly (c : Call) : appendsOnly (await host c).
Proof. exact (begins_appendsOnly c _ (await_begins c)). Qed.

Lemma showReminderWindow_begins (event : Event) :
  begins WindowsGetCurrent (showReminderWindow host event).
Proof.
  apply tryCatch_begins; [|intros; apply ret_appendsOnly].
  apply bind_begins; [|intros; apply await_appendsOnly].
  apply tryCatch_begins; [|intros; apply ret_appendsOnly].
  apply bind_begins; [apply await_begins|]. intros _.
  destruct (currentWindow host) as [[[?|] [?|] ? ?]|]; apply ret_appendsOnly.
Qed.

Lemma createDocument_appendsOnly :
  appendsOnly
    (tryCatch (await host OffscreenCreateDocument)
       (fun error =>
          match messageOf error with
          | Some m => if JS.includes m "single offscreen document" then ret tt
                      else throw error
          | None => throw error
          end)).
Proof.
  apply tryCatch_appendsOnly; [apply await_appendsOnly|]. intros e.
  destruct (messageOf e) as [m|]; [|apply throw_appendsOnly].
  destruct (JS.includes m _); [apply ret_appendsOnly|apply throw_appendsOnly].
Qed.

Lemma ensureOffscreenDocument_begins :
  begins (firstOffscreenCall host) (ensureOffscreenDocument host).
Proof.
  unfold ensureOffscreenDocument, firstOffscreenCall.
  destruct (hasGetContexts host).
  - apply bind_begins.
    + apply tryCatch_begins; [|intros; apply ret_appendsOnly].
      intros st. destruct (await_begins RuntimeGetContexts st) as [l Hl].
      unfold bind. destruct (await host RuntimeGetContexts st) as [st1 [[]|e]];
        cbn [fst] in *; eauto.
    + intros [|]; [apply ret_appendsOnly|apply createDocument_appendsOnly].
  - intros st. unfold bind, tryCatch at 1, ret. cbn [fst].
    destruct (createDocument_appendsOnly st) as [l Hl]. revert Hl.
    unfold tryCatch, await.
    destruct (rejects host (calls st) OffscreenCreateDocument) as [m|]; cbn.
    + destruct (JS.includes m _); cbn; eauto.
    + eauto.
Qed.

Lemma recreateOffscreenDocument_appendsOnly :
  appendsOnly (recreateOffscreenDocument host).
Proof.
  apply bind_appendsOnly.
  - apply tryCatch_appendsOnly; [apply await_appendsOnly|intros; apply ret_appendsOnly].
  - intros _. apply tryCatch_appendsOnly; [apply await_appendsOnly|].
    intros; apply throw_appendsOnly.
Qed.

Lemma sendThroughOffscreen_begins (type : string) :
  begins (firstOffscreenCall host) (sendThroughOffscreen host type).
Proof.
  apply tryCatch_begins; [|intros; apply ret_appendsOnly].
  apply bind_begins; [apply ensureOffscreenDocument_begins|]. intros _.
  apply bind_appendsOnly; [apply sleep_appendsOnly|]. intros _.
  apply tryCatch_appendsOnly; [apply await_appendsOnly|]. intros _.
  apply bind_appendsOnly; [apply recreateOffscreenDocument_appendsOnly|]. intros _.
  apply bind_appendsOnly; [apply sleep_appendsOnly|]. intros _.
  apply await_appendsOnly.
Qed.

Lemma flashColors_appendsOnly (colors : list string) : appendsOnly (flashColors host colors).
Proof.
  induction colors as [|color rest IH]; cbn [flashColors]; [apply ret_appendsOnly|].
  apply bind_appendsOnly; [apply await_appendsOnly|]. intros _.
  apply bind_appendsOnly; [apply await_appendsOnly|]. intros _.
  apply bind_appendsOnly; [apply sleep_appendsOnly|]. intros _. exact IH.
Qed.

Lemma flashBadge_begins (reminderMinutes : Z) :
  begins (SetBadgeText "⏰") (flashBadge host reminderMinutes).
Proof.
  apply tryCatch_begins; [|intros; apply ret_appendsOnly].
  apply bind_begins; [|intros _; apply bind_appendsOnly;
                       [apply await_appendsOnly|intros; apply await_appendsOnly]].
  cbn [flashColors].
  apply bind_begins; [apply await_begins|]. intros _.
  apply bind_appendsOnly; [apply await_appendsOnly|]. intros _.
  apply bind_appendsOnly; [apply sleep_appendsOnly|]. intros _.
  exact (flashColors_appendsOnly
           [BADGE_COLORS.WARNING; BADGE_COLORS.URGENT;
            BADGE_COLORS.WARNING; BADGE_COLORS.URGENT]).
Qed.

Lemma autoOpenLater_appendsOnly (url : string) : appendsOnly (autoOpenLater host url).
Proof.
  apply bind_appendsOnly; [apply sleep_appendsOnly|]. intros _.
  apply tryCatch_appendsOnly; [apply await_appendsOnly|intros; apply ret_appendsOnly].
Qed.

(** A step that begins with [c] leaves [c] among the calls it adds. *)
Lemma when_begins_adds (b : bool) (c : Call) (m : M unit) (st : DispatchState) :
  begins c m ->
  exists l, calls (fst (when b m st)) = calls st ++ l /\ (b = true -> In c l).
Proof.
  intros Hm. destruct b; cbn.
  - destruct (Hm st) as [l Hl]. exists (c :: l). split; [exact Hl|]. intros _. left. reflexivity.
  - exists []. rewrite app_nil_r. split; [reflexivity|discriminate].
Qed.

(** X27. Once the settings are read and the OS notification is
    created, the dispatch returns normally whatever fails afterwards,
    and every channel that the settings enable is started: the popup
    asks for the current window, the sound and the speech reach for the
    offscreen document, and the badge flash is always begun. *)
Theorem dispatch_starts_every_channel
    (event : Event) (st st1 st2 : DispatchState) (settings : Settings) (nid : string) :
  getSettings host st = (st1, Ok settings) ->
  showOSNotification host event st1 = (st2, Ok nid) ->
  exists st' l,
    triggerAttention host event st = (st', Ok tt) /\
    calls st' = calls st2 ++ l /\
    In (SetBadgeText "⏰") l /\
    (cfg_showPopup settings <> Some false -> In WindowsGetCurrent l) /\
    (cfg_playSound settings <> Some false -> In (firstOffscreenCall host) l) /\
    (cfg_voiceReminder settings = true -> In (firstOffscreenCall host) l).
Proof.
  intros Hs Hn.
  set (popup := when (negb (bool_decide (cfg_showPopup settings = Some false)))
                  (showReminderWindow host event)).
  set (sound := when (negb (bool_decide (cfg_playSound settings = Some false)))
                  (playSound host)).
  set (voice := when (cfg_voiceReminder settings) (speakReminder host event settings)).
  set (later := when (cfg_autoOpen settings && JS.truthyStr (meetingLink event))
                  (autoOpenLater host (default "" (meetingLink event)))).
  assert (Heq : triggerAttention host event st =
                (run popup; run sound; run voice;
                 run flashBadge host (minutesOr2 settings); later) st2).
  { unfold triggerAttention. unfold bind at 1. rewrite Hs.
    unfold bind at 1. rewrite Hn. reflexivity. }
  assert (Hcp : catchesAll popup)
    by (apply when_catchesAll, showReminderWindow_catchesAll).
  assert (Hcs : catchesAll sound) by (apply when_catchesAll, playSound_catchesAll).
  assert (Hcv : catchesAll voice) by (apply when_catchesAll, speakReminder_catchesAll).
  assert (Hcl : catchesAll later) by (apply when_catchesAll, autoOpenLater_catchesAll).
  destruct (when_begins_adds (negb (bool_decide (cfg_showPopup settings = Some false)))
              WindowsGetCurrent _ st2 (showReminderWindow_begins event)) as (l1 & Hl1 & Hin1).
  fold popup in Hl1.
  destruct (Hcp st2) as (sa & [] & Ha). rewrite Ha in Hl1. cbn [fst] in Hl1.
  destruct (when_begins_adds (negb (bool_decide (cfg_playSound settings = Some false)))
              (firstOffscreenCall host) _ sa (sendThroughOffscreen_begins "PLAY_SOUND"))
    as (l2 & Hl2 & Hin2).
  change (sendThroughOffscreen host "PLAY_SOUND") with (playSound host) in Hl2.
  fold sound in Hl2.
  destruct (Hcs sa) as (sb & [] & Hb). rewrite Hb in Hl2. cbn [fst] in Hl2.
  destruct (when_begins_adds (cfg_voiceReminder settings)
              (firstOffscreenCall host) _ sb (sendThroughOffscreen_begins "SPEAK_REMINDER"))
    as (l3 & Hl3 & Hin3).
  change (sendThroughOffscreen host "SPEAK_REMINDER")
    with (speakReminder host event settings) in Hl3.
  fold voice in Hl3.
  destruct (Hcv sb) as (sc & [] & Hc). rewrite Hc in Hl3. cbn [fst] in Hl3.
  destruct (flashBadge_begins (minutesOr2 settings) sc) as [l4 Hl4].
  destruct (flashBadge_catchesAll host (minutesOr2 settings) sc) as (sd & [] & Hd).
  rewrite Hd in Hl4. cbn [fst] in Hl4.
  destruct (when_appendsOnly (cfg_autoOpen settings && JS.truthyStr (meetingLink event)) _
              (autoOpenLater_appendsOnly (default "" (meetingLink event))) sd) as [l5 Hl5].
  fold later in Hl5.
  destruct (Hcl sd) as (st' & [] & Hlater). rewrite Hlater in Hl5. cbn [fst] in Hl5.
  exists st', (l1 ++ l2 ++ l3 ++ (SetBadgeText "⏰" :: l4) ++ l5).
  split.
  { rewrite Heq. unfold bind. rewrite Ha, Hb, Hc, Hd. exact Hlater. }
  split.
  { rewrite Hl5, Hl4, Hl3, Hl2, Hl1. rewrite <- !app_assoc. reflexivity. }
  rewrite !in_app_iff. split; [right; right; right; left; left; reflexivity|].
  split; [|split].
  - intros Hp. left. apply Hin1. rewrite bool_decide_false by exact Hp. reflexivity.
  - intros Hp. right. left. apply Hin2. rewrite bool_decide_false by exact Hp. reflexivity.
  - intros Hv. right. right. left. apply Hin3. exact Hv.
Qed.

End ChannelFacts.

(** Witness of X27: the popup window and the messages to the offscreen
    document fail; the badge is flashed all the same. *)
Lemma dispatch_starts_every_channel_witness :
  let event := mkEvent (Some "evt-42") (Some "Standup") (Some (Valid 1700000040000)) None
                 None (Some "https://meet.google.com/abc-defg-hij") None None
                 (Some "google-api") false 0 in
  let host : Host :=
    mkHost (fun _ c => match c with
                       | WindowsCreate _ _ => Some "Invalid value for bounds."
                       | SendMessage _ => Some "Receiving end does not exist."
                       | _ => None
                       end)
      true (Some DEFAULT_SETTINGS) None
      (Some (mkWindow (Some 0) (Some 0) 1920 1080)) (fun _ => 0%nat) in
  let st0 := mkDispatchState [] true in
  exists st' l,
    NotificationManager.triggerAttention host event st0 = (st', Ok tt) /\
    In (SetBadgeText "⏰") l /\ In WindowsGetCurrent l /\ In RuntimeGetContexts l.
Proof.
  intros event host st0.
  destruct (dispatch_starts_every_channel host event st0
              (mkDispatchState [StorageSyncGet] true)
              (mkDispatchState
                 [StorageSyncGet; StorageSyncGet;
                  NotificationsCreate "pingmeet_evt-42" "⏰ Meeting starting in 2 minutes!"
                    "Standup" true] true)
              DEFAULT_SETTINGS "pingmeet_evt-42" eq_refl eq_refl)
    as (st' & l & Hrun & _ & Hbadge & Hpopup & Hsound & _).
  exists st', l. split; [exact Hrun|]. split; [exact Hbadge|].
  split; [apply Hpopup; discriminate|apply Hsound; discriminate].
Defined.

Section OffscreenFacts.

Import NotificationManager.

Variable host : Host.

(** X28. The sound and speech channels never throw and retry once: the
    message to the offscreen document is sent at most twice, a second
    time only after the document has been closed and made anew, and
    the document is closed at most once. *)
Theorem sendThroughOffscreen_retries_once (type : string) (st : DispatchState) :
  exists l,
    sendThroughOffscreen host type st =
      ({| calls := calls st ++ l; useSyncStorage := useSyncStorage st |}, Ok tt) /\
    let sends := length (List.filter
                   (fun c => match c with SendMessage _ => true | _ => false end) l) in
    let closes := length (List.filter
                    (fun c => match c with OffscreenCloseDocument => true | _ => false end) l) in
    (sends <= 2)%nat /\ (closes <= 1)%nat /\ (sends = 2%nat -> closes = 1%nat).
Proof.
  unfold sendThroughOffscreen, ensureOffscreenDocument, recreateOffscreenDocument,
    tryCatch, bind, await, sleep, ret, throw, record.
  repeat match goal with
         | |- context [hasGetContexts host] => destruct (hasGetContexts host); cbn
         | |- context [rejects host ?h ?c] =>
             destruct (rejects host h c) eqn:?; cbn
         | |- context [offscreenContexts host ?h] =>
             destruct (offscreenContexts host h); cbn
         | |- context [JS.includes ?m ?p] => destruct (JS.includes m p); cbn
         end;
    rewrite <- ?app_assoc; cbn [app];
    (eexists; split; [reflexivity|cbn; lia]).
Qed.

End OffscreenFacts.

(* ------------------------------------------------------------------ *)
(** ** The declined gate on events of the Google API *)

Lemma find_self_parseGoogle (l : list GoogleAttendee) :
  List.find att_self (map CalendarAPI.parseGoogleAttendee l) =
  CalendarAPI.parseGoogleAttendee <$> List.find (fun a => default false (goa_self a)) l.
Proof.
  induction l as [|a l IH]; [reflexivity|]. cbn [map List.find].
  change (att_self (CalendarAPI.parseGoogleAttendee a)) with (default false (goa_self a)).
  destruct (default false (goa_self a)); [reflexivity|exact IH].
Qed.

(** X29. An item of the Google API whose attendee entry of the user
    (the first entry with [self]) carries the response [declined] is
    parsed into an event that [scheduleReminder] skips: no alarm is
    created and nothing is stored, whatever the world is. *)
Theorem google_declined_is_never_scheduled
    (item : GoogleItem) (l : list GoogleAttendee) (a : GoogleAttendee) (w : World) :
  is_Some (go_start item) ->
  go_attendees item = Some l ->
  List.find (fun a => default false (goa_self a)) l = Some a ->
  goa_responseStatus a = Some "declined" ->
  In (CalendarAPI.parseGoogleItem item) (CalendarAPI.parseGoogleEvents [item]) /\
  Service.scheduleReminder (CalendarAPI.parseGoogleItem item) w = (w, DeclinedSkipped).
Proof.
  intros [s Hs] Hl Hfind Hresp. split.
  - unfold CalendarAPI.parseGoogleEvents. cbn [List.filter].
    rewrite Hs. cbn. left. reflexivity.
  - unfold Service.scheduleReminder.
    assert (Hd : Service.userDeclined (CalendarAPI.parseGoogleItem item) = true).
    { unfold Service.userDeclined, Service.userAttendee. cbn [attendees CalendarAPI.parseGoogleItem].
      rewrite Hl. cbn [default]. change (Datatypes.id l) with l.
      rewrite find_self_parseGoogle, Hfind. cbn.
      rewrite Hresp. reflexivity. }
    rewrite Hd. cbn [startTime CalendarAPI.parseGoogleItem]. rewrite Hs. reflexivity.
Qed.

(** Witness of X29. *)
Lemma google_declined_is_never_scheduled_witness :
  let me := mkGoogleAttendee (Some "me@x.org") (Some "declined") (Some true) in
  let item :=
    mkGoogleItem (Some "g1") (Some "Budget Review") (Some (Valid 1700000040000))
      (Some (Valid 1700003640000)) None None None
      (Some [mkGoogleAttendee (Some "boss@x.org") (Some "accepted") None; me]) in
  let w := mkWorld ∅ ∅ [] DEFAULT_SETTINGS (mkApiStatus true true)
             1699999000000 (mkBadge "" "") in
  Service.scheduleReminder (CalendarAPI.parseGoogleItem item) w = (w, DeclinedSkipped).
Proof.
  intros me item w.
  refine (proj2 (google_declined_is_never_scheduled item _ me w _ eq_refl eq_refl eq_refl)).
  eexists. reflexivity.
Defined.
